(** * The agentic tool-call loop of gemini.mjs

    A shallow embedding of [run] (src/gemini.mjs, lines 126-223): the
    conversation loop that sends a prompt to the model, asks the operator
    about every function call of a turn, executes the approved ones and
    sends the batch of function responses back.

    Strings are sequences of code units.  The development covers code
    units 0..255 (Rocq's [ascii]); on those, the JavaScript built-ins used
    by the loop ([toLowerCase], [substring], [length], [JSON.stringify])
    are the functions defined below. *)

From Stdlib Require Import String Ascii List Arith Bool Lia.
Import ListNotations.
Open Scope string_scope.

(** ** JavaScript strings *)

Module JS.

(** [String.prototype.toLowerCase] on one code unit below 256: the
    letters A-Z and the Latin-1 capitals U+00C0-U+00DE (U+00D7, the
    multiplication sign, excepted) move up by 32; nothing else has a
    lowercase mapping. *)
Definition lowerUnit (c : ascii) : ascii :=
  let n := nat_of_ascii c in
  if Nat.leb 65 n && Nat.leb n 90 then ascii_of_nat (n + 32)
  else if Nat.leb 192 n && Nat.leb n 222 && negb (Nat.eqb n 215)
       then ascii_of_nat (n + 32)
       else c.

Fixpoint toLowerCase (s : string) : string :=
  match s with
  | EmptyString => EmptyString
  | String c r => String (lowerUnit c) (toLowerCase r)
  end.

(** [s.substring(0, n)]: the first [n] code units of [s], all of [s]
    when it is shorter. *)
Definition substring0 (n : nat) (s : string) : string :=
  String.substring 0 n s.

(** A value read from an object property: a string, or [undefined]
    when the property is absent. *)
Definition value := option string.

(** Interpolation of a value in a template literal. *)
Definition interpolate (v : value) : string :=
  match v with
  | Some s => s
  | None => "undefined"
  end.

(** Truthiness of [errorMsg], which is [null] or a string: [null] and
    the empty string are falsy. *)
Definition truthy (v : option string) : bool :=
  match v with
  | Some EmptyString => false
  | Some _ => true
  | None => false
  end.

(** An object whose properties hold strings, as the list of its
    properties in enumeration order. *)
Definition object := list (string * string).

Fixpoint get (k : string) (o : object) : value :=
  match o with
  | [] => None
  | (k', v) :: r => if String.eqb k k' then Some v else get k r
  end.

(** *** JSON.stringify *)

Definition backslash : ascii := ascii_of_nat 92.
Definition dquote : ascii := ascii_of_nat 34.
Definition newline : string := String (ascii_of_nat 10) EmptyString.

Definition hexDigit (n : nat) : ascii :=
  if Nat.ltb n 10 then ascii_of_nat (48 + n) else ascii_of_nat (87 + n).

(** QuoteJSONString on one code unit: the two-character escapes, the
    [\u00XX] form for the other control characters, the unit itself
    otherwise. *)
Definition quoteUnit (c : ascii) : string :=
  let n := nat_of_ascii c in
  if Nat.eqb n 8 then "\b"
  else if Nat.eqb n 9 then "\t"
  else if Nat.eqb n 10 then "\n"
  else if Nat.eqb n 12 then "\f"
  else if Nat.eqb n 13 then "\r"
  else if Nat.eqb n 34 then String backslash (String dquote EmptyString)
  else if Nat.eqb n 92 then String backslash (String backslash EmptyString)
  else if Nat.ltb n 32
       then String backslash
              (String "u" (String "0" (String "0"
                 (String (hexDigit (n / 16))
                    (String (hexDigit (n mod 16)) EmptyString)))))
       else String c EmptyString.

Fixpoint quote (s : string) : string :=
  match s with
  | EmptyString => EmptyString
  | String c r => quoteUnit c ++ quote r
  end.

(** A quoted string, between double quotes. *)
Definition quoteJSONString (s : string) : string :=
  String dquote (quote s ++ String dquote EmptyString).

(** The members [key:value] of an object, separated by commas. *)
Fixpoint members (o : object) : string :=
  match o with
  | [] => EmptyString
  | [(k, v)] => quoteJSONString k ++ ":" ++ quoteJSONString v
  | (k, v) :: r => quoteJSONString k ++ ":" ++ quoteJSONString v ++ "," ++ members r
  end.

Definition stringify (o : object) : string :=
  "{" ++ members o ++ "}".

End JS.

(** ** Conversation data *)

(** [part.functionCall]: the name of the tool and its arguments, an
    object with string properties as the tool declarations (lines 78-113)
    require. *)
Record FunctionCall := {
  name : string;
  args : JS.object
}.

(** One part of the model's turn.  [p.functionCall] is an object or
    absent, so its truthiness is its presence. *)
Record Part := {
  text : option string;
  functionCall : option FunctionCall
}.

(** [result.response.candidates[0].content.parts]. *)
Definition Response := list Part.

(** [response: { error: errorMsg }] or [response: { content: output }]. *)
Inductive Payload :=
| ErrorOf (errorMsg : string)
| ContentOf (output : string).

Record FunctionResponse := {
  fr_name : string;
  response : Payload
}.

(** What [chat.sendMessage] is given: the user prompt, or the array of
    function responses. *)
Inductive Message :=
| Prompt (userPrompt : string)
| Responses (functionResponses : list FunctionResponse).

(** A thrown error, as far as the program looks at it: [err.message]. *)
Record Exception := { message : string }.

Inductive Colour := yellow | blue | red.

(** The calls the program makes to the outside, in the order it makes
    them, with their arguments and what came back. *)
Inductive Event :=
| Sent (m : Message) (reply : Exception + Response)
| Printed (c : Colour) (line : string)
| Asked (query answer : string)
| ExecSync (command : JS.value) (reply : Exception + string)
| PathResolve (p : JS.value) (reply : Exception + string)
| MkdirSync (dir : string) (reply : Exception + unit)
| WriteFileSync (fullPath : string) (data : JS.value) (reply : Exception + unit)
| ReadFileSync (fullPath : string) (reply : Exception + string)
| Closed.

(** ** The collaborators *)

(** The chat session of the SDK: [chat.sendMessage] returns the next
    turn of the model or throws.  A turn that is returned is taken to be
    well formed: it has a first candidate, whose parts are the turn. *)
Record Transport := {
  Chat : Type;
  sendMessage : Chat -> Message -> Chat * (Exception + Response)
}.

(** The local machine: terminal, operator, shell and file system.
    [resolve v] is [path.resolve(cwd, v)]. *)
Record Machine := {
  World : Type;
  consoleLog : World -> Colour -> string -> World;
  question : World -> string -> World * string;
  execSync : World -> JS.value -> World * (Exception + string);
  resolve : JS.value -> Exception + string;
  dirname : string -> string;
  mkdirSync : World -> string -> World * (Exception + unit);
  writeFileSync : World -> string -> JS.value -> World * (Exception + unit);
  readFileSync : World -> string -> World * (Exception + string);
  rlClose : World -> World
}.

(** ** Computations: state, the calls made, and how the code left *)

Inductive Outcome (A : Type) :=
| Return (a : A)
| Throw (e : Exception)
| Diverge.
Arguments Return {A} a.
Arguments Throw {A} e.
Arguments Diverge {A}.

Section Computations.
Context {T : Transport} {M : Machine}.

Record State := { chat : Chat T; world : World M }.

Record Result (A : Type) := {
  st : State;
  evs : list Event;
  out : Outcome A
}.
Arguments st {A} r.
Arguments evs {A} r.
Arguments out {A} r.

Definition Comp (A : Type) := State -> Result A.

Definition ret {A} (a : A) : Comp A :=
  fun s => {| st := s; evs := []; out := Return a |}.

Definition diverge {A} : Comp A :=
  fun s => {| st := s; evs := []; out := Diverge |}.

Definition bind {A B} (m : Comp A) (f : A -> Comp B) : Comp B :=
  fun s =>
    let r := m s in
    match out r with
    | Return a =>
        let r' := f a (st r) in
        {| st := st r'; evs := evs r ++ evs r'; out := out r' |}
    | Throw e => {| st := st r; evs := evs r; out := Throw e |}
    | Diverge => {| st := st r; evs := evs r; out := Diverge |}
    end.

(** [try { body } catch (err) { handler }] *)
Definition tryCatch {A} (body : Comp A) (handler : Exception -> Comp A)
  : Comp A :=
  fun s =>
    let r := body s in
    match out r with
    | Throw e =>
        let r' := handler e (st r) in
        {| st := st r'; evs := evs r ++ evs r'; out := out r' |}
    | _ => r
    end.

(** [try { body } finally { cleanup }] *)
Definition finally {A} (body : Comp A) (cleanup : Comp unit) : Comp A :=
  fun s =>
    let r := body s in
    match out r with
    | Diverge => r
    | _ =>
        let r' := cleanup (st r) in
        {| st := st r'; evs := evs r ++ evs r';
           out := match out r' with
                  | Return _ => out r
                  | Throw e => Throw e
                  | Diverge => Diverge
                  end |}
    end.

(** A call into the local machine that may throw. *)
Definition machineCall {A} (ev : Exception + A -> Event)
    (f : World M -> World M * (Exception + A)) : Comp A :=
  fun s =>
    let r := f (world s) in
    {| st := {| chat := chat s; world := fst r |};
       evs := [ev (snd r)];
       out := match snd r with inl e => Throw e | inr a => Return a end |}.

End Computations.

Arguments State : clear implicits.
Arguments Comp : clear implicits.
Arguments Result : clear implicits.
Arguments st {T M A} r.
Arguments evs {T M A} r.
Arguments out {T M A} r.

Declare Scope comp_scope.
Delimit Scope comp_scope with comp.
Notation "x <- m ;; k" := (bind m (fun x => k))
  (at level 61, m at next level, right associativity) : comp_scope.
Notation "m ;; k" := (bind m (fun _ => k))
  (at level 61, right associativity) : comp_scope.

(** ** The program: [run] and its loop *)

(** The branch taken on the operator's answer (lines 174, 194, 196). *)
Inductive Decision := Approve | Skip | Deny.

Definition decision (answer : string) : Decision :=
  if String.eqb (JS.toLowerCase answer) "y" then Approve
  else if String.eqb (JS.toLowerCase answer) "skip" then Skip
  else Deny.

Definition truncationMarker : string :=
  JS.newline ++ "...[OUTPUT TRUNCATED]...".

(** Lines 179-181. *)
Definition truncateOutput (output : string) : string :=
  if Nat.ltb 2000 (String.length output)
  then JS.substring0 2000 output ++ truncationMarker
  else output.

(** Lines 163-165. *)
Definition safeArgsLog (a : JS.object) : string :=
  if Nat.ltb 150 (String.length (JS.stringify a))
  then JS.substring0 150 (JS.stringify a) ++ "...}"
  else JS.stringify a.

Definition requestLine (call : FunctionCall) : string :=
  JS.newline ++ "[AI Action Request]: " ++ name call ++ " -> "
    ++ safeArgsLog (args call).

Definition permissionQuery : string := "Allow this action? (y/n/skip): ".

(** [p => p.functionCall] as a predicate. *)
Definition hasFunctionCall (p : Part) : bool :=
  match functionCall p with
  | Some _ => true
  | None => false
  end.

(** [parts.filter(p => p.functionCall).map(p => p.functionCall)] *)
Fixpoint functionCallsOf (parts : Response) : list FunctionCall :=
  match parts with
  | [] => []
  | p :: rest =>
      match functionCall p with
      | Some call => call :: functionCallsOf rest
      | None => functionCallsOf rest
      end
  end.

(** [result.response.text()]: the text parts of the turn, concatenated. *)
Definition responseText (parts : Response) : string :=
  String.concat EmptyString
    (map (fun p => match text p with Some t => t | None => EmptyString end)
         parts).

(** Lines 201-209: [errorMsg] decides by its truthiness. *)
Definition functionResponseOf (call : FunctionCall) (output : string)
    (errorMsg : option string) : FunctionResponse :=
  match errorMsg with
  | Some msg =>
      if JS.truthy errorMsg
      then {| fr_name := name call; response := ErrorOf msg |}
      else {| fr_name := name call; response := ContentOf output |}
  | None => {| fr_name := name call; response := ContentOf output |}
  end.

Section Program.
Context {T : Transport} {M : Machine}.
Local Open Scope comp_scope.

Definition send (m : Message) : Comp T M Response :=
  fun s =>
    let r := sendMessage T (chat s) m in
    {| st := {| chat := fst r; world := world s |};
       evs := [Sent m (snd r)];
       out := match snd r with inl e => Throw e | inr t => Return t end |}.

(** The state in which the model has replied to [m]. *)
Definition afterSend (m : Message) (s : State T M) : State T M :=
  {| chat := fst (sendMessage T (chat s) m); world := world s |}.

Definition print (c : Colour) (line : string) : Comp T M unit :=
  fun s =>
    {| st := {| chat := chat s; world := consoleLog M (world s) c line |};
       evs := [Printed c line];
       out := Return tt |}.

Definition askPermission (query : string) : Comp T M string :=
  fun s =>
    let r := question M (world s) query in
    {| st := {| chat := chat s; world := fst r |};
       evs := [Asked query (snd r)];
       out := Return (snd r) |}.

Definition closeInput : Comp T M unit :=
  fun s =>
    {| st := {| chat := chat s; world := rlClose M (world s) |};
       evs := [Closed];
       out := Return tt |}.

Definition pathResolve (v : JS.value) : Comp T M string :=
  machineCall (PathResolve v) (fun w => (w, resolve M v)).

(** The body of the inner [try] (lines 176-190): the value left in
    [output]. *)
Definition execute (call : FunctionCall) : Comp T M string :=
  if String.eqb (name call) "run_shell_command" then
    output <- machineCall (ExecSync (JS.get "command" (args call)))
                (fun w => execSync M w (JS.get "command" (args call))) ;;
    ret (truncateOutput output)
  else if String.eqb (name call) "write_file" then
    fullPath <- pathResolve (JS.get "path" (args call)) ;;
    machineCall (MkdirSync (dirname M fullPath))
      (fun w => mkdirSync M w (dirname M fullPath)) ;;
    machineCall (WriteFileSync fullPath (JS.get "content" (args call)))
      (fun w => writeFileSync M w fullPath (JS.get "content" (args call))) ;;
    ret ("Successfully wrote file: "
           ++ JS.interpolate (JS.get "path" (args call)))
  else if String.eqb (name call) "read_file" then
    fullPath <- pathResolve (JS.get "path" (args call)) ;;
    machineCall (ReadFileSync fullPath)
      (fun w => readFileSync M w fullPath)
  else ret EmptyString.

(** Lines 163-169: the request is shown and the operator is asked. *)
Definition promptFor (call : FunctionCall) : Comp T M string :=
  print yellow (requestLine call) ;;
  askPermission permissionQuery.

(** The state in which the operator has answered, and the answer. *)
Definition afterPrompt (call : FunctionCall) (s : State T M) : State T M :=
  {| chat := chat s;
     world := fst (question M (consoleLog M (world s) yellow
                                 (requestLine call))
                     permissionQuery) |}.

Definition answerGiven (call : FunctionCall) (s : State T M) : string :=
  snd (question M (consoleLog M (world s) yellow (requestLine call))
         permissionQuery).

(** Lines 171-198: the pair ([output], [errorMsg]) after the branches.
    [output] is assigned only when the [try] body completes. *)
Definition outcomeOf (call : FunctionCall) (answer : string)
  : Comp T M (string * option string) :=
  match decision answer with
  | Approve =>
      tryCatch (output <- execute call ;; ret (output, None))
               (fun err => ret (EmptyString, Some (message err)))
  | Skip => ret (EmptyString, Some "User explicitly skipped this action.")
  | Deny => ret (EmptyString, Some "User denied permission.")
  end.

(** One iteration of [for (const call of functionCalls)]. *)
Definition processCall (call : FunctionCall) : Comp T M FunctionResponse :=
  answer <- promptFor call ;;
  oe <- outcomeOf call answer ;;
  ret (functionResponseOf call (fst oe) (snd oe)).

(** The [for] loop, pushing onto [functionResponses]. *)
Fixpoint processCalls (calls : list FunctionCall)
    (functionResponses : list FunctionResponse)
  : Comp T M (list FunctionResponse) :=
  match calls with
  | [] => ret functionResponses
  | call :: rest =>
      r <- processCall call ;;
      processCalls rest (functionResponses ++ [r])
  end.

(** The body of the [while] loop (lines 155-213). *)
Definition turn (result : Response) : Comp T M Response :=
  functionResponses <- processCalls (functionCallsOf result) [] ;;
  send (Responses functionResponses).

(** The [while] loop (lines 154-214); [fuel] bounds the number of
    times its condition is tested. *)
Fixpoint loop (fuel : nat) (result : Response) : Comp T M Response :=
  match fuel with
  | 0 => diverge
  | S fuel' =>
      if existsb hasFunctionCall result then
        result' <- turn result ;;
        loop fuel' result'
      else ret result
  end.

Definition finalLine (result : Response) : string :=
  JS.newline ++ "[Gemini]:" ++ JS.newline ++ responseText result.

(** [chalk.red] joins its two arguments with a space. *)
Definition fatalLine (error : Exception) : string :=
  JS.newline ++ "[Fatal Error]:" ++ " " ++ message error.

(** The body of the outer [try] (lines 151-216). *)
Definition conversation (fuel : nat) (userPrompt : string) : Comp T M unit :=
  result <- send (Prompt userPrompt) ;;
  result' <- loop fuel result ;;
  print blue (finalLine result').

(** Lines 148-222, from the prompt extracted from the command line. *)
Definition run (fuel : nat) (userPrompt : string) : Comp T M unit :=
  finally
    (tryCatch (conversation fuel userPrompt)
              (fun error => print red (fatalLine error)))
    closeInput.

End Program.

(** ** A scripted transport and a small machine

    The stub of a test harness: the transport replays a list of turns,
    the operator's answers are read from a list, the file system is an
    association list and the shell knows three commands. *)

(** [scripted]: each [sendMessage] returns the next turn of the script
    and throws once the script is used up. *)
Definition scripted : Transport := {|
  Chat := list Response;
  sendMessage := fun script _ =>
    match script with
    | [] => ([], inl {| message := "fetch failed" |})
    | next :: rest => (rest, inr next)
    end
|}.

(** The state in which the transport has [script] left to replay. *)
Definition onScript {M : Machine} (script : list Response) (w : World M)
  : State scripted M :=
  @Build_State scripted M script w.

Module Bench.

Record desk := {
  answers : list string;
  files : list (string * string);
  screen : list (Colour * string);
  reading : bool
}.

Definition sayTo (w : desk) (c : Colour) (line : string) : desk :=
  {| answers := answers w; files := files w;
     screen := screen w ++ [(c, line)]; reading := reading w |}.

Definition ask (w : desk) (query : string) : desk * string :=
  match answers w with
  | [] => (w, EmptyString)
  | a :: rest =>
      ({| answers := rest; files := files w;
          screen := screen w; reading := reading w |}, a)
  end.

Fixpoint repeatString (n : nat) (s : string) : string :=
  match n with
  | 0 => EmptyString
  | S n' => s ++ repeatString n' s
  end.

Definition shell (w : desk) (command : JS.value)
  : desk * (Exception + string) :=
  match command with
  | None => (w, inl {| message := "The command argument must be of type string" |})
  | Some c =>
      if String.eqb c "ls"
      then (w, inr (String.concat JS.newline (map fst (files w))))
      else if String.eqb c "yes | head -n 1500"
      then (w, inr (repeatString 1500 ("y" ++ JS.newline)))
      else if String.eqb c "true"
      then (w, inr EmptyString)
      else (w, inl {| message := "Command failed: " ++ c |})
  end.

Definition resolvePath (p : JS.value) : Exception + string :=
  match p with
  | None => inl {| message := "The paths[1] argument must be of type string" |}
  | Some (String "/" r) => inr (String "/" r)
  | Some r => inr ("/work/" ++ r)
  end.

Definition mkdir (w : desk) (dir : string) : desk * (Exception + unit) :=
  (w, inr tt).

Definition write (w : desk) (fullPath : string) (data : JS.value)
  : desk * (Exception + unit) :=
  match data with
  | None => (w, inl {| message := "The data argument must be of type string" |})
  | Some d =>
      ({| answers := answers w;
          files := (fullPath, d)
                     :: filter (fun f => negb (String.eqb (fst f) fullPath))
                          (files w);
          screen := screen w; reading := reading w |}, inr tt)
  end.

Definition read (w : desk) (fullPath : string)
  : desk * (Exception + string) :=
  match JS.get fullPath (files w) with
  | Some d => (w, inr d)
  | None =>
      (w, inl {| message := "ENOENT: no such file or directory, open "
                              ++ fullPath |})
  end.

Definition hangUp (w : desk) : desk :=
  {| answers := answers w; files := files w;
     screen := screen w; reading := false |}.

Definition machine : Machine := {|
  World := desk;
  consoleLog := sayTo;
  question := ask;
  execSync := shell;
  resolve := resolvePath;
  dirname := fun _ => "/work";
  mkdirSync := mkdir;
  writeFileSync := write;
  readFileSync := read;
  rlClose := hangUp
|}.

Definition start (script : list Response) (operator : list string)
  : State scripted machine :=
  @onScript machine script
    {| answers := operator;
       files := [("/work/notes.txt", "remember the milk")];
       screen := []; reading := true |}.

Definition says (t : string) : Part :=
  {| text := Some t; functionCall := None |}.

Definition requests (call : FunctionCall) : Part :=
  {| text := None; functionCall := Some call |}.

Definition lsCall : FunctionCall :=
  {| name := "run_shell_command"; args := [("command", "ls")] |}.

Definition yesCall : FunctionCall :=
  {| name := "run_shell_command";
     args := [("command", "yes | head -n 1500")] |}.

Definition falseCall : FunctionCall :=
  {| name := "run_shell_command"; args := [("command", "false")] |}.

Definition writeCall : FunctionCall :=
  {| name := "write_file";
     args := [("path", "a.txt"); ("content", "hello")] |}.

Definition bigWrite : FunctionCall :=
  {| name := "write_file";
     args := [("path", "big.txt"); ("content", repeatString 100 "ab")] |}.

Definition readCall : FunctionCall :=
  {| name := "read_file"; args := [("path", "notes.txt")] |}.

Definition deleteCall : FunctionCall :=
  {| name := "delete_file"; args := [("path", "notes.txt")] |}.

(** Two turns with function calls, the second with narrative text. *)
Definition twoTurns : list Response :=
  [ [requests lsCall];
    [says "Now the files."; requests writeCall; requests readCall] ].

End Bench.

(** ** The command line and the start-up

    The reading of [process.argv] at the top of the file (lines 32-47)
    and in [run] (lines 128-146), the choice of the model (line 40) and
    the loading of the context document (lines 49-65). *)

Module Cli.

(** [a.indexOf(x)]: the first index at which [x] occurs, if any. *)
Fixpoint indexOf (x : string) (a : list string) : option nat :=
  match a with
  | [] => None
  | y :: r => if String.eqb y x then Some 0 else option_map S (indexOf x r)
  end.

(** What [a.splice(i, 2)] leaves in [a]: up to two elements go, from
    index [i] on. *)
Definition splice2 (i : nat) (a : list string) : list string :=
  firstn i a ++ skipn (i + 2) a.

(** Lines 131-134 and 137-140: the first occurrence of the flag goes,
    with the word after it. *)
Definition stripFlag (flag : string) (a : list string) : list string :=
  match indexOf flag a with
  | Some i => splice2 i a
  | None => a
  end.

(** [arg.startsWith('-')] *)
Definition startsWithDash (arg : string) : bool :=
  match arg with
  | String c _ => Ascii.eqb c "-"
  | EmptyString => false
  end.

(** The words that make the prompt (lines 128-142, before the join). *)
Definition promptWords (argv : list string) : list string :=
  filter (fun arg => negb (startsWithDash arg))
    (stripFlag "-c" (stripFlag "-m" (skipn 2 argv))).

(** Line 142. *)
Definition userPromptOf (argv : list string) : string :=
  String.concat " " (promptWords argv).

Definition usageLine : string :=
  "Usage: gemini [-m model_alias] [-c context_name] <prompt>".

(** Lines 143-146: with an empty prompt the usage line is printed and
    the process exits with status 0; otherwise [run] goes on with the
    prompt. *)
Inductive Entry :=
| Usage (line : string)
| Converse (userPrompt : string).

Definition entry (argv : list string) : Entry :=
  if String.eqb (userPromptOf argv) EmptyString
  then Usage usageLine
  else Converse (userPromptOf argv).

(** Lines 34-37 and 44-47: the word after the first occurrence of the
    flag in [process.argv], when there is one. *)
Definition flagValue (flag : string) (argv : list string) : option string :=
  match indexOf flag argv with
  | Some index =>
      if Nat.ltb (index + 1) (length argv)
      then nth_error argv (index + 1)
      else None
  | None => None
  end.

(** The configuration, in the shape of the built-in one (line 24): a
    default alias and an object from aliases to model names. *)
Record Config := {
  defaultModel : string;
  models : JS.object
}.

Definition builtinConfig : Config :=
  {| defaultModel := "flash"; models := [("flash", "gemini-3-flash")] |}.

Definition selectedModelAlias (config : Config) (argv : list string)
  : string :=
  match flagValue "-m" argv with
  | Some alias => alias
  | None => defaultModel config
  end.

Definition contextName (argv : list string) : string :=
  match flagValue "-c" argv with
  | Some c => c
  | None => "default"
  end.

(** The string-keyed properties of [Object.prototype], which every
    object made by a literal or by [JSON.parse] inherits. *)
Definition objectPrototype : list string :=
  ["constructor"; "__defineGetter__"; "__defineSetter__"; "hasOwnProperty";
   "__lookupGetter__"; "__lookupSetter__"; "isPrototypeOf";
   "propertyIsEnumerable"; "toString"; "valueOf"; "__proto__";
   "toLocaleString"].

(** What [o[k]] evaluates to: an own string, a member of the prototype
    (a function, or the prototype itself), or [undefined]. *)
Inductive Property :=
| Own (v : string)
| Inherited (k : string)
| Undefined.

Definition read (o : JS.object) (k : string) : Property :=
  match JS.get k o with
  | Some v => Own v
  | None => if existsb (String.eqb k) objectPrototype
            then Inherited k
            else Undefined
  end.

Definition truthy (p : Property) : bool :=
  match p with
  | Own EmptyString => false
  | Own _ => true
  | Inherited _ => true
  | Undefined => false
  end.

(** Line 40: [config.models[alias] || config.models[config.defaultModel]]. *)
Definition actualModelString (config : Config) (argv : list string)
  : Property :=
  if truthy (read (models config) (selectedModelAlias config argv))
  then read (models config) (selectedModelAlias config argv)
  else read (models config) (defaultModel config).

(** *** The context document *)

Definition BASE_PATH : string := "/mnt/data/projects/ai_tools/gemini-cli".

(** What the start-up needs besides the machine of the loop:
    [console.warn(chalk.orange(line))], which may throw, and [path.join]. *)
Record Startup := {
  host : Machine;
  consoleWarn : World host -> string -> World host * (Exception + unit);
  pathJoin : list string -> string
}.

Inductive StartEvent :=
| ReadContext (path : string) (reply : Exception + string)
| Warned (line : string) (reply : Exception + unit).

Definition missingContext (name : string) : string :=
  JS.newline ++ "[Warning]: Context file 'contexts/" ++ name
    ++ ".md' not found. Falling back to default.md." ++ JS.newline.

Definition missingDefault : string :=
  JS.newline ++ "[Warning]: 'contexts/default.md' not found either. "
    ++ "Using hardcoded fallback." ++ JS.newline.

Definition hardcoded : string := "You are an expert AI CLI assistant.".

Section Context_document.
Context (S : Startup).

(** The disk afterwards, the reads and warnings made, and the value of
    [rawInstructions] or the error that left the module. *)
Record Loaded := {
  disk : World (host S);
  shown : list StartEvent;
  rawInstructions : Outcome string
}.

Definition contextPath (name : string) : string :=
  pathJoin S [BASE_PATH; "contexts"; name ++ ".md"].

Definition defaultPath : string :=
  pathJoin S [BASE_PATH; "contexts"; "default.md"].

(** Lines 59-64. *)
Definition loadDefault (w : World (host S)) : Loaded :=
  let r := readFileSync (host S) w defaultPath in
  match snd r with
  | inr content =>
      {| disk := fst r;
         shown := [ReadContext defaultPath (inr content)];
         rawInstructions := Return content |}
  | inl fallbackError =>
      let k := consoleWarn S (fst r) missingDefault in
      {| disk := fst k;
         shown := [ReadContext defaultPath (inl fallbackError);
                   Warned missingDefault (snd k)];
         rawInstructions := match snd k with
                            | inl x => Throw x
                            | inr _ => Return hardcoded
                            end |}
  end.

(** Lines 53-65. *)
Definition loadContext (name : string) (w : World (host S)) : Loaded :=
  let r := readFileSync (host S) w (contextPath name) in
  match snd r with
  | inr content =>
      {| disk := fst r;
         shown := [ReadContext (contextPath name) (inr content)];
         rawInstructions := Return content |}
  | inl e =>
      if negb (String.eqb name "default") then
        let k := consoleWarn S (fst r) (missingContext name) in
        match snd k with
        | inl x =>
            {| disk := fst k;
               shown := [ReadContext (contextPath name) (inl e);
                         Warned (missingContext name) (inl x)];
               rawInstructions := Throw x |}
        | inr u =>
            let d := loadDefault (fst k) in
            {| disk := disk d;
               shown := ReadContext (contextPath name) (inl e)
                          :: Warned (missingContext name) (inr u)
                          :: shown d;
               rawInstructions := rawInstructions d |}
        end
      else
        let d := loadDefault (fst r) in
        {| disk := disk d;
           shown := ReadContext (contextPath name) (inl e) :: shown d;
           rawInstructions := rawInstructions d |}
  end.

End Context_document.

End Cli.

(** ** Replies as the SDK delivers them

    Inside the outer [try], the reply of [sendMessage] is read at three
    places, and each reading can throw: the parts of the first candidate
    at the test of the loop (lines 154-155), the arguments of a function
    call when they are serialized (line 163, where [JSON.stringify] of a
    missing [args] is [undefined] and has no [length]), and the text
    (line 216).  Here the reply is what these readings give, and the
    loop is the one above with the readings written out. *)

(** [part.functionCall] as delivered: [args] may be missing. *)
Record DeliveredCall := {
  calledName : string;
  calledArgs : option JS.object
}.

Record DeliveredPart := {
  partText : option string;
  partCall : option DeliveredCall
}.

(** What [result.response.candidates[0].content.parts] evaluates to or
    throws, and what [result.response.text()] returns or throws. *)
Record Reply := {
  partsRead : Exception + list DeliveredPart;
  textRead : Exception + string
}.

Record Service := {
  Session : Type;
  sendReply : Session -> Message -> Session * (Exception + Reply)
}.

(** The calls made: to the service, with the reply as delivered, and to
    the machine. *)
Inductive Step :=
| Received (m : Message) (reply : Exception + Reply)
| Did (ev : Event).

(** The processing of one call makes no use of the transport; it is run
    beside one that is never called. *)
Definition idle : Transport := {|
  Chat := unit;
  sendMessage := fun c _ => (c, inl {| message := "not connected" |})
|}.

(** The [TypeError] of line 163 for a call without [args]. *)
Definition unreadableArgs : Exception :=
  {| message := "Cannot read properties of undefined (reading 'length')" |}.

Definition hasDeliveredCall (p : DeliveredPart) : bool :=
  match partCall p with
  | Some _ => true
  | None => false
  end.

Fixpoint deliveredCallsOf (parts : list DeliveredPart) : list DeliveredCall :=
  match parts with
  | [] => []
  | p :: rest =>
      match partCall p with
      | Some call => call :: deliveredCallsOf rest
      | None => deliveredCallsOf rest
      end
  end.

Section Delivered.
Context {V : Service} {M : Machine}.

(** The machine after the [for] loop, the calls made to it, and the
    array [functionResponses] or the error that left the loop. *)
Record Batch := {
  after : World M;
  did : list Event;
  batch : Outcome (list FunctionResponse)
}.

(** Lines 161-210 over the calls as delivered. *)
Fixpoint processDelivered (calls : list DeliveredCall)
    (functionResponses : list FunctionResponse) (w : World M) : Batch :=
  match calls with
  | [] => {| after := w; did := []; batch := Return functionResponses |}
  | call :: rest =>
      match calledArgs call with
      | None => {| after := w; did := []; batch := Throw unreadableArgs |}
      | Some a =>
          let r := processCall {| name := calledName call; args := a |}
                     (@Build_State idle M tt w) in
          match out r with
          | Return response =>
              let k := processDelivered rest
                         (functionResponses ++ [response]) (world (st r)) in
              {| after := after k;
                 did := evs r ++ did k;
                 batch := batch k |}
          | Throw e =>
              {| after := world (st r); did := evs r; batch := Throw e |}
          | Diverge =>
              {| after := world (st r); did := evs r; batch := Diverge |}
          end
      end
  end.

(** Where the program stands: the session, the machine, the calls made
    and how the code left. *)
Record Ended (A : Type) := {
  sess : Session V;
  mach : World M;
  steps : list Step;
  ended : Outcome A
}.
Arguments sess {A} e.
Arguments mach {A} e.
Arguments steps {A} e.
Arguments ended {A} e.

(** The [while] loop (lines 154-214) over replies as delivered. *)
Fixpoint deliveredLoop (fuel : nat) (result : Reply)
    (c : Session V) (w : World M) : Ended Reply :=
  match fuel with
  | 0 => {| sess := c; mach := w; steps := []; ended := Diverge |}
  | S fuel' =>
      match partsRead result with
      | inl e => {| sess := c; mach := w; steps := []; ended := Throw e |}
      | inr parts =>
          if existsb hasDeliveredCall parts then
            let b := processDelivered (deliveredCallsOf parts) [] w in
            match batch b with
            | Return functionResponses =>
                let r := sendReply V c (Responses functionResponses) in
                match snd r with
                | inl e =>
                    {| sess := fst r; mach := after b;
                       steps := map Did (did b)
                                  ++ [Received (Responses functionResponses)
                                        (inl e)];
                       ended := Throw e |}
                | inr next =>
                    let k := deliveredLoop fuel' next (fst r) (after b) in
                    {| sess := sess k; mach := mach k;
                       steps := map Did (did b)
                                  ++ Received (Responses functionResponses)
                                       (inr next)
                                  :: steps k;
                       ended := ended k |}
                end
            | Throw e =>
                {| sess := c; mach := after b;
                   steps := map Did (did b); ended := Throw e |}
            | Diverge =>
                {| sess := c; mach := after b;
                   steps := map Did (did b); ended := Diverge |}
            end
          else
            {| sess := c; mach := w; steps := []; ended := Return result |}
      end
  end.

(** The body of the outer [try] (lines 151-216). *)
Definition deliveredConversation (fuel : nat) (userPrompt : string)
    (c : Session V) (w : World M) : Ended unit :=
  let r := sendReply V c (Prompt userPrompt) in
  match snd r with
  | inl e =>
      {| sess := fst r; mach := w;
         steps := [Received (Prompt userPrompt) (inl e)];
         ended := Throw e |}
  | inr first =>
      let k := deliveredLoop fuel first (fst r) w in
      match ended k with
      | Return result =>
          match textRead result with
          | inl e =>
              {| sess := sess k; mach := mach k;
                 steps := Received (Prompt userPrompt) (inr first) :: steps k;
                 ended := Throw e |}
          | inr t =>
              {| sess := sess k;
                 mach := consoleLog M (mach k) blue
                           (JS.newline ++ "[Gemini]:" ++ JS.newline ++ t);
                 steps := Received (Prompt userPrompt) (inr first)
                            :: steps k
                            ++ [Did (Printed blue
                                       (JS.newline ++ "[Gemini]:"
                                          ++ JS.newline ++ t))];
                 ended := Return tt |}
          end
      | Throw e =>
          {| sess := sess k; mach := mach k;
             steps := Received (Prompt userPrompt) (inr first) :: steps k;
             ended := Throw e |}
      | Diverge =>
          {| sess := sess k; mach := mach k;
             steps := Received (Prompt userPrompt) (inr first) :: steps k;
             ended := Diverge |}
      end
  end.

(** Lines 148-222 over replies as delivered. *)
Definition deliveredRun (fuel : nat) (userPrompt : string)
    (c : Session V) (w : World M) : Ended unit :=
  let k := deliveredConversation fuel userPrompt c w in
  match ended k with
  | Return u =>
      {| sess := sess k; mach := rlClose M (mach k);
         steps := steps k ++ [Did Closed];
         ended := Return u |}
  | Throw error =>
      {| sess := sess k;
         mach := rlClose M (consoleLog M (mach k) red (fatalLine error));
         steps := steps k ++ [Did (Printed red (fatalLine error)); Did Closed];
         ended := Return tt |}
  | Diverge => k
  end.

End Delivered.

Arguments Batch : clear implicits.
Arguments Ended : clear implicits.
Arguments sess {V M A} e.
Arguments mach {V M A} e.
Arguments steps {V M A} e.
Arguments ended {V M A} e.







(** More situations on the small machine. *)
Module Trial.

(** A log of 3000 code units on the disk, and an operator who approves. *)
Definition archive : State scripted Bench.machine :=
  @onScript Bench.machine []
    {| Bench.answers := ["y"];
       Bench.files := [("/work/log.txt", Bench.repeatString 1500 "ab")];
       Bench.screen := []; Bench.reading := true |}.

Definition readLog : FunctionCall :=
  {| name := "read_file"; args := [("path", "log.txt")] |}.

(** A start-up whose warnings print, and one whose warnings throw. *)
Definition quiet : Cli.Startup := {|
  Cli.host := Bench.machine;
  Cli.consoleWarn := fun w _ => (w, inr tt);
  Cli.pathJoin := String.concat "/"
|}.

Definition unstyled : Cli.Startup := {|
  Cli.host := Bench.machine;
  Cli.consoleWarn := fun w _ =>
    (w, inl {| message := "chalk.orange is not a function" |});
  Cli.pathJoin := String.concat "/"
|}.

(** A disk that holds the default context only. *)
Definition shelf : Bench.desk :=
  {| Bench.answers := [];
     Bench.files :=
       [("/mnt/data/projects/ai_tools/gemini-cli/contexts/default.md",
         "You are a careful assistant.")];
     Bench.screen := []; Bench.reading := true |}.

Definition bare : Bench.desk :=
  {| Bench.answers := []; Bench.files := [];
     Bench.screen := []; Bench.reading := true |}.

(** A service that replays replies as delivered. *)
Definition replaying : Service := {|
  Session := list Reply;
  sendReply := fun script _ =>
    match script with
    | [] => ([], inl {| message := "fetch failed" |})
    | next :: rest => (rest, inr next)
    end
|}.




Definition approving : Bench.desk :=
  {| Bench.answers := ["y"]; Bench.files := [];
     Bench.screen := []; Bench.reading := true |}.

(** A reply with no candidate: [candidates[0]] is [undefined]. *)
Definition noCandidate : Reply :=
  {| partsRead :=
       inl {| message :=
                "Cannot read properties of undefined (reading 'content')" |};
     textRead := inr EmptyString |}.

(** A reply whose function call came without [args]. *)
Definition bareCall : Reply :=
  {| partsRead :=
       inr [{| partText := None;
               partCall := Some {| calledName := "run_shell_command";
                                   calledArgs := None |} |}];
     textRead := inr EmptyString |}.

End Trial.

(** ** What a trace shows *)

(** The calls to the transport, in order. *)
Definition exchanges (tr : list Event)
  : list (Message * (Exception + Response)) :=
  flat_map (fun ev => match ev with
                      | Sent m reply => [(m, reply)]
                      | _ => []
                      end) tr.

(** The answers read from the operator, in order. *)
Definition answersRead (tr : list Event) : list string :=
  flat_map (fun ev => match ev with
                      | Asked _ answer => [answer]
                      | _ => []
                      end) tr.

(** The error thrown by a call of the executor, when it threw. *)
Definition failureOf (ev : Event) : option Exception :=
  match ev with
  | ExecSync _ (inl e) => Some e
  | PathResolve _ (inl e) => Some e
  | MkdirSync _ (inl e) => Some e
  | WriteFileSync _ _ (inl e) => Some e
  | ReadFileSync _ (inl e) => Some e
  | _ => None
  end.

Definition failures (tr : list Event) : list Exception :=
  flat_map (fun ev => match failureOf ev with
                      | Some e => [e]
                      | None => []
                      end) tr.

(** The calls of the executor: shell and file system. *)
Definition isExecution (ev : Event) : bool :=
  match ev with
  | ExecSync _ _ | PathResolve _ _ | MkdirSync _ _
  | WriteFileSync _ _ _ | ReadFileSync _ _ => true
  | _ => false
  end.

(** What the loop itself may do: it prints requests only, and leaves
    the input open. *)
Definition isLoopEvent (ev : Event) : bool :=
  match ev with
  | Printed yellow _ => true
  | Printed _ _ => false
  | Closed => false
  | _ => true
  end.

Definition thrown {A} (o : Outcome A) : list Exception :=
  match o with
  | Throw e => [e]
  | _ => []
  end.

(** A batch answers a turn: as many responses as the turn has function
    calls, with the names of the calls in their order. *)
Definition answersTurn (batch : list FunctionResponse) (parts : Response)
  : Prop :=
  length batch = length (functionCallsOf parts) /\
  map fr_name batch = map name (functionCallsOf parts).

(** The exchanges that follow the turn [prev]: each message is one batch
    answering the turn received just before, that turn had function
    calls, and nothing follows a failed exchange. *)
Fixpoint correlated (prev : Response)
    (xs : list (Message * (Exception + Response))) : Prop :=
  match xs with
  | [] => True
  | (m, reply) :: rest =>
      (exists batch, m = Responses batch /\ answersTurn batch prev) /\
      functionCallsOf prev <> [] /\
      match reply with
      | inr next => correlated next rest
      | inl _ => rest = []
      end
  end.

(** The function calls of a list of turns, counted. *)
Definition callsIn (batches : list Response) : nat :=
  list_sum (map (fun b => length (functionCallsOf b)) batches).

(** The last code unit of a string. *)
Fixpoint lastUnit (s : string) : option ascii :=
  match s with
  | EmptyString => None
  | String c EmptyString => Some c
  | String _ r => lastUnit r
  end.


(** The lines printed, with their colours, in order. *)
Definition printed (tr : list Event) : list (Colour * string) :=
  flat_map (fun ev => match ev with
                      | Printed c line => [(c, line)]
                      | _ => []
                      end) tr.

(** Every call of the executor in the trace comes after an answer that
    approves, with nothing but calls of the executor in between. *)
Definition guarded (tr : list Event) : Prop :=
  forall (pre post : list Event) (ev : Event),
    tr = (pre ++ ev :: post)%list ->
    isExecution ev = true ->
    exists before query answer mid,
      pre = (before ++ Asked query answer :: mid)%list /\
      decision answer = Approve /\
      forallb isExecution mid = true.

(** What the response to a call must say when the answer refused it. *)
Definition reports (answer : string) (r : FunctionResponse) : Prop :=
  (decision answer = Deny ->
   response r = ErrorOf "User denied permission.") /\
  (decision answer = Skip ->
   response r = ErrorOf "User explicitly skipped this action.").

(** No control character: every code unit is 32 or more. *)
Fixpoint printable (s : string) : bool :=
  match s with
  | EmptyString => true
  | String c r => Nat.leb 32 (nat_of_ascii c) && printable r
  end.

(** * Properties *)

Ltac split_reply :=
  repeat match goal with
         | |- context [match snd ?x with inl _ => _ | inr _ => _ end] =>
             destruct (snd x) eqn:?; simpl
         | |- context [match ?x with inl _ => _ | inr _ => _ end] =>
             destruct x eqn:?; simpl
         end.

(** ** Strings *)

Lemma length_append (a b : string) :
  String.length (a ++ b) = String.length a + String.length b.
Proof.
  induction a as [|c a IH]; simpl; [reflexivity | now rewrite IH].
Qed.

Lemma length_substring0 (n : nat) (s : string) :
  String.length (JS.substring0 n s) = Nat.min n (String.length s).
Proof.
  unfold JS.substring0. revert s.
  induction n as [|n IH]; intros [|c s]; simpl; try reflexivity.
  now rewrite IH.
Qed.

Lemma toLowerCase_append (a b : string) :
  JS.toLowerCase (a ++ b) = JS.toLowerCase a ++ JS.toLowerCase b.
Proof.
  induction a as [|c a IH]; simpl; [reflexivity | now rewrite IH].
Qed.

Lemma length_toLowerCase (s : string) :
  String.length (JS.toLowerCase s) = String.length s.
Proof.
  induction s as [|c s IH]; simpl; [reflexivity | now rewrite IH].
Qed.

Lemma toLowerCase_empty (s : string) :
  JS.toLowerCase s = EmptyString -> s = EmptyString.
Proof. destruct s; simpl; [reflexivity | discriminate]. Qed.

(** Only [y] and [Y] lowercase to [y]. *)
Lemma lowerUnit_y (c : ascii) :
  JS.lowerUnit c = "y"%char <-> c = "y"%char \/ c = "Y"%char.
Proof.
  split.
  - destruct c as [[] [] [] [] [] [] [] []]; vm_compute; intro H;
      first [discriminate H | now left | now right].
  - intros [-> | ->]; reflexivity.
Qed.

Lemma toLowerCase_y (s : string) :
  JS.toLowerCase s = "y" <-> s = "y" \/ s = "Y".
Proof.
  split.
  - destruct s as [|c s]; simpl; [discriminate|].
    intro H. injection H as Hc Hs.
    apply toLowerCase_empty in Hs. subst s.
    apply lowerUnit_y in Hc. destruct Hc as [-> | ->]; auto.
  - intros [-> | ->]; reflexivity.
Qed.

Lemma lastUnit_append (a : string) (c : ascii) :
  lastUnit (a ++ String c EmptyString) = Some c.
Proof.
  induction a as [|d a IH]; simpl; [reflexivity|].
  rewrite IH. destruct a; reflexivity.
Qed.

(** ** The branch taken on the answer *)

Lemma decision_Approve (answer : string) :
  decision answer = Approve <-> JS.toLowerCase answer = "y".
Proof.
  unfold decision.
  destruct (String.eqb_spec (JS.toLowerCase answer) "y") as [E | E].
  - tauto.
  - destruct (String.eqb (JS.toLowerCase answer) "skip");
      split; intro H; try discriminate; contradiction.
Qed.

Lemma decision_Skip (answer : string) :
  decision answer = Skip <-> JS.toLowerCase answer = "skip".
Proof.
  unfold decision.
  destruct (String.eqb_spec (JS.toLowerCase answer) "y") as [E | E].
  - rewrite E. split; discriminate.
  - destruct (String.eqb_spec (JS.toLowerCase answer) "skip") as [E' | E'];
      split; intro H; try discriminate; try reflexivity; tauto.
Qed.

Lemma decision_Deny (answer : string) :
  decision answer = Deny <->
  JS.toLowerCase answer <> "y" /\ JS.toLowerCase answer <> "skip".
Proof.
  unfold decision.
  destruct (String.eqb_spec (JS.toLowerCase answer) "y") as [E | E].
  - split; [discriminate | tauto].
  - destruct (String.eqb_spec (JS.toLowerCase answer) "skip") as [E' | E'].
    + split; [discriminate | tauto].
    + tauto.
Qed.

Lemma decision_leading_space (s : string) :
  decision (" " ++ s) = Deny.
Proof.
  apply decision_Deny. simpl. split; discriminate.
Qed.

Lemma decision_trailing_space (s : string) :
  decision (s ++ " ") = Deny.
Proof.
  apply decision_Deny. rewrite toLowerCase_append.
  split; intro H; apply (f_equal lastUnit) in H;
    simpl JS.toLowerCase in H; rewrite lastUnit_append in H;
    discriminate H.
Qed.

(** C10. The answer is compared as it is after lowercasing: nothing is
    trimmed and nothing but [y] approves.  [yes], [ y] and [Y ] are
    denied, as is every answer that starts or ends with a space; the
    answers that approve are [y] and [Y] alone, and an answer skips
    exactly when its lowercase form is [skip]. *)
Theorem approval_exact_match :
  decision "yes" = Deny /\
  decision " y" = Deny /\
  decision "Y " = Deny /\
  (forall s, decision (" " ++ s) = Deny) /\
  (forall s, decision (s ++ " ") = Deny) /\
  (forall s, decision s = Approve <-> JS.toLowerCase s = "y") /\
  (forall s, decision s = Approve <-> s = "y" \/ s = "Y") /\
  (forall s, decision s = Skip <-> JS.toLowerCase s = "skip").
Proof.
  repeat split; try reflexivity;
    try apply decision_leading_space;
    try apply decision_trailing_space;
    try apply decision_Approve; try apply decision_Skip.
  - intro H. apply toLowerCase_y. now apply decision_Approve.
  - intro H. apply decision_Approve. now apply toLowerCase_y.
Qed.

(** ** Traces of the parts of the loop *)

Lemma exchanges_app (a b : list Event) :
  exchanges (a ++ b)%list = (exchanges a ++ exchanges b)%list.
Proof. apply flat_map_app. Qed.

Lemma answersRead_app (a b : list Event) :
  answersRead (a ++ b)%list = (answersRead a ++ answersRead b)%list.
Proof. apply flat_map_app. Qed.

Lemma failures_app (a b : list Event) :
  failures (a ++ b)%list = (failures a ++ failures b)%list.
Proof. apply flat_map_app. Qed.

Lemma elt_in_app {A} (a b pre post : list A) (x : A) :
  (pre ++ x :: post = a ++ b)%list ->
  (exists mid, a = pre ++ x :: mid /\ post = mid ++ b)%list \/
  (exists mid, pre = a ++ mid /\ b = mid ++ x :: post)%list.
Proof.
  revert pre. induction a as [|y a IH]; intros pre H.
  - right. exists pre. split; [reflexivity | now symmetry].
  - destruct pre as [|z pre]; simpl in H; injection H as -> H.
    + left. exists a. split; [reflexivity | assumption].
    + destruct (IH pre H) as [(mid & -> & ->) | (mid & -> & ->)].
      * left. exists mid. split; reflexivity.
      * right. exists mid. split; reflexivity.
Qed.

Lemma isExecution_isLoopEvent (tr : list Event) :
  forallb isExecution tr = true -> forallb isLoopEvent tr = true.
Proof.
  induction tr as [|ev tr IH]; simpl; [reflexivity|].
  intro H. apply andb_true_iff in H. destruct H as [H1 H2].
  rewrite (IH H2). destruct ev; try discriminate; reflexivity.
Qed.

Lemma hasFunctionCall_calls (result : Response) :
  existsb hasFunctionCall result = true <-> functionCallsOf result <> [].
Proof.
  induction result as [|p rest IH]; simpl.
  - split; [discriminate | congruence].
  - unfold hasFunctionCall at 1. destruct (functionCall p); simpl.
    + split; [discriminate | reflexivity].
    + exact IH.
Qed.

Lemma hasFunctionCall_none (result : Response) :
  existsb hasFunctionCall result = false <-> functionCallsOf result = [].
Proof.
  destruct (existsb hasFunctionCall result) eqn:E.
  - apply hasFunctionCall_calls in E. split; [discriminate | contradiction].
  - split; [|reflexivity]. intros _.
    destruct (functionCallsOf result) eqn:F; [reflexivity|].
    assert (H : existsb hasFunctionCall result = true)
      by (apply hasFunctionCall_calls; rewrite F; discriminate).
    congruence.
Qed.

Section Facts.
Context {T : Transport} {M : Machine}.
(** The executor talks to the machine only; it stops at its first
    failed call, which is then the error it throws. *)
Lemma execute_trace (call : FunctionCall) (s : State T M) :
  chat (st (execute call s)) = chat s /\
  exchanges (evs (execute call s)) = [] /\
  answersRead (evs (execute call s)) = [] /\
  failures (evs (execute call s)) = thrown (out (execute call s)) /\
  out (execute call s) <> Diverge /\
  forallb isExecution (evs (execute call s)) = true.
Proof.
  unfold execute.
  destruct (String.eqb (name call) "run_shell_command");
    [| destruct (String.eqb (name call) "write_file");
       [| destruct (String.eqb (name call) "read_file")]];
    unfold bind, pathResolve, machineCall, ret; simpl;
    split_reply; repeat split; try reflexivity; try discriminate;
    try congruence.
Qed.

Lemma bind_Return {A B} (m : Comp T M A) (f : A -> Comp T M B)
    (s : State T M) (a : A) :
  out (m s) = Return a ->
  bind m f s = {| st := st (f a (st (m s)));
                  evs := evs (m s) ++ evs (f a (st (m s)));
                  out := out (f a (st (m s))) |}.
Proof. unfold bind. intros ->. reflexivity. Qed.

Lemma promptFor_eq (call : FunctionCall) (s : State T M) :
  promptFor call s =
    {| st := afterPrompt call s;
       evs := [Printed yellow (requestLine call);
               Asked permissionQuery (answerGiven call s)];
       out := Return (answerGiven call s) |}.
Proof. reflexivity. Qed.

(** An answer that does not approve: nothing runs. *)
Lemma processCall_refused (call : FunctionCall) (s : State T M) :
  decision (answerGiven call s) <> Approve ->
  processCall call s =
    {| st := afterPrompt call s;
       evs := [Printed yellow (requestLine call);
               Asked permissionQuery (answerGiven call s)];
       out := Return
                {| fr_name := name call;
                   response :=
                     ErrorOf (match decision (answerGiven call s) with
                              | Skip => "User explicitly skipped this action."
                              | _ => "User denied permission."
                              end) |} |}.
Proof.
  intro H. unfold processCall.
  rewrite (bind_Return _ _ _ _ (f_equal out (promptFor_eq call s))).
  rewrite promptFor_eq. simpl. unfold outcomeOf.
  destruct (decision (answerGiven call s)); [contradiction | |];
    reflexivity.
Qed.

(** An approving answer: the executor runs once, after the prompt, and
    what it returned or threw becomes the response. *)
Lemma processCall_approved (call : FunctionCall) (s : State T M) :
  decision (answerGiven call s) = Approve ->
  st (processCall call s) = st (execute call (afterPrompt call s)) /\
  evs (processCall call s) =
    ([Printed yellow (requestLine call);
      Asked permissionQuery (answerGiven call s)]
       ++ evs (execute call (afterPrompt call s)))%list /\
  (forall output, out (execute call (afterPrompt call s)) = Return output ->
     out (processCall call s)
     = Return {| fr_name := name call; response := ContentOf output |}) /\
  (forall e, out (execute call (afterPrompt call s)) = Throw e ->
     out (processCall call s)
     = Return (functionResponseOf call EmptyString (Some (message e)))).
Proof.
  intro H. unfold processCall.
  rewrite (bind_Return _ _ _ _ (f_equal out (promptFor_eq call s))).
  rewrite promptFor_eq. simpl. unfold outcomeOf. rewrite H.
  unfold tryCatch, bind, ret. simpl.
  destruct (execute_trace call (afterPrompt call s))
    as (_ & _ & _ & _ & Hd & _).
  destruct (out (execute call (afterPrompt call s))) eqn:E; simpl;
    [ | | contradiction ];
    rewrite ?app_nil_r; repeat split; try reflexivity;
    intros ? [=]; subst; reflexivity.
Qed.

(** Whatever the answer and whatever the executor does, the call is
    answered by a response under its own name; the transport is not
    used and the operator is asked once. *)
Lemma processCall_shape (call : FunctionCall) (s : State T M) :
  (exists r, out (processCall call s) = Return r /\ fr_name r = name call) /\
  chat (st (processCall call s)) = chat s /\
  exchanges (evs (processCall call s)) = [] /\
  answersRead (evs (processCall call s)) = [answerGiven call s].
Proof.
  destruct (decision (answerGiven call s)) eqn:D.
  - destruct (processCall_approved call s D) as (Hs & He & Hr & Ht).
    destruct (execute_trace call (afterPrompt call s))
      as (Hc & Hx & Ha & _ & Hd & _).
    rewrite Hs, He, exchanges_app, answersRead_app, Hx, Ha, Hc.
    repeat split; try reflexivity.
    destruct (out (execute call (afterPrompt call s))) eqn:E;
      [ | | contradiction ].
    + rewrite (Hr _ eq_refl). eexists; split; reflexivity.
    + rewrite (Ht _ eq_refl). eexists; split; [reflexivity|].
      unfold functionResponseOf.
      destruct (JS.truthy (Some (message e))); reflexivity.
  - rewrite processCall_refused by (rewrite D; discriminate).
    simpl. repeat split; try reflexivity.
    eexists; split; reflexivity.
  - rewrite processCall_refused by (rewrite D; discriminate).
    simpl. repeat split; try reflexivity.
    eexists; split; reflexivity.
Qed.

Lemma truthy_nonempty (msg : string) :
  msg <> EmptyString -> JS.truthy (Some msg) = true.
Proof. destruct msg; [contradiction | reflexivity]. Qed.

(** A failed call of the executor is the error of the response. *)
Lemma processCall_failure (call : FunctionCall) (s : State T M)
    (e : Exception) :
  In e (failures (evs (processCall call s))) ->
  message e <> EmptyString ->
  out (processCall call s)
  = Return {| fr_name := name call; response := ErrorOf (message e) |}.
Proof.
  intros Hin Hm.
  destruct (decision (answerGiven call s)) eqn:D.
  - destruct (processCall_approved call s D) as (_ & He & _ & Ht).
    destruct (execute_trace call (afterPrompt call s))
      as (_ & _ & _ & Hf & _).
    rewrite He, failures_app, Hf in Hin. simpl in Hin.
    destruct (out (execute call (afterPrompt call s))) eqn:E;
      simpl in Hin; try contradiction.
    destruct Hin as [-> | []].
    rewrite (Ht _ eq_refl). unfold functionResponseOf.
    now rewrite truthy_nonempty.
  - rewrite processCall_refused in Hin by (rewrite D; discriminate).
    contradiction.
  - rewrite processCall_refused in Hin by (rewrite D; discriminate).
    contradiction.
Qed.

(** *** The batch *)

Lemma processCalls_shape (calls : list FunctionCall) :
  forall (acc : list FunctionResponse) (s : State T M),
  exists batch,
    out (processCalls calls acc s) = Return (acc ++ batch)%list /\
    length batch = length calls /\
    map fr_name batch = map name calls /\
    chat (st (processCalls calls acc s)) = chat s /\
    exchanges (evs (processCalls calls acc s)) = [] /\
    length (answersRead (evs (processCalls calls acc s))) = length calls.
Proof.
  induction calls as [|call rest IH]; intros acc s.
  - exists []. simpl. rewrite app_nil_r. repeat split; reflexivity.
  - destruct (processCall_shape call s) as ((r & Hr & Hn) & Hc & Hx & Ha).
    destruct (IH (acc ++ [r])%list (st (processCall call s)))
      as (batch & Ho & Hl & Hm & Hc' & Hx' & Ha').
    exists (r :: batch). simpl processCalls.
    rewrite (bind_Return _ _ _ _ Hr). cbn [st evs out].
    rewrite exchanges_app, answersRead_app, Hx, Hx', Ha, Ho, Hc', Hc.
    rewrite <- app_assoc, length_app, Ha'. cbn [length map app].
    rewrite Hl, Hm, Hn. repeat split; reflexivity.
Qed.

(** A failed call of the executor is reported in the batch, under the
    name of the call that failed. *)
Lemma processCalls_failure (calls : list FunctionCall) :
  forall (acc : list FunctionResponse) (s : State T M)
         (batch : list FunctionResponse) (e : Exception),
    out (processCalls calls acc s) = Return batch ->
    In e (failures (evs (processCalls calls acc s))) ->
    message e <> EmptyString ->
    exists call,
      In call calls /\
      In {| fr_name := name call; response := ErrorOf (message e) |} batch.
Proof.
  induction calls as [|call rest IH]; intros acc s batch e Ho Hin Hm.
  - contradiction.
  - destruct (processCall_shape call s) as ((r & Hr & _) & _).
    simpl processCalls in Ho, Hin.
    rewrite (bind_Return _ _ _ _ Hr) in Ho, Hin. cbn [st evs out] in Ho, Hin.
    rewrite failures_app in Hin. apply in_app_or in Hin.
    destruct Hin as [Hin | Hin].
    + exists call. split; [now left|].
      rewrite (processCall_failure call s e Hin Hm) in Hr.
      injection Hr as <-.
      destruct (processCalls_shape rest
                  (acc ++ [{| fr_name := name call;
                              response := ErrorOf (message e) |}])%list
                  (st (processCall call s))) as (b & Hb & _).
      rewrite Hb in Ho. injection Ho as <-.
      apply in_or_app. left. apply in_or_app. right. now left.
    + destruct (IH _ _ _ _ Ho Hin Hm) as (c & Hc & Hb).
      exists c. split; [now right | exact Hb].
Qed.

(** *** One turn of the loop *)

Lemma turn_eq (result : Response) (s : State T M) :
  exists batch,
    out (processCalls (functionCallsOf result) [] s) = Return batch /\
    answersTurn batch result /\
    turn result s =
      {| st := {| chat := fst (sendMessage T (chat s) (Responses batch));
                  world := world (st (processCalls (functionCallsOf result)
                                        [] s)) |};
         evs := evs (processCalls (functionCallsOf result) [] s)
                  ++ [Sent (Responses batch)
                        (snd (sendMessage T (chat s) (Responses batch)))];
         out := match snd (sendMessage T (chat s) (Responses batch)) with
                | inl e => Throw e
                | inr t => Return t
                end |}.
Proof.
  destruct (processCalls_shape (functionCallsOf result) [] s)
    as (batch & Ho & Hl & Hm & Hc & _).
  exists batch. simpl in Ho. split; [exact Ho|].
  split; [split; assumption|].
  unfold turn. rewrite (bind_Return _ _ _ _ Ho).
  unfold send. cbn [st evs out]. rewrite Hc. reflexivity.
Qed.

Lemma processCall_events (call : FunctionCall) (s : State T M) :
  forallb isLoopEvent (evs (processCall call s)) = true.
Proof.
  destruct (decision (answerGiven call s)) eqn:D.
  - destruct (processCall_approved call s D) as (_ & He & _).
    destruct (execute_trace call (afterPrompt call s))
      as (_ & _ & _ & _ & _ & Hx).
    rewrite He, forallb_app, (isExecution_isLoopEvent _ Hx). reflexivity.
  - rewrite processCall_refused by (rewrite D; discriminate). reflexivity.
  - rewrite processCall_refused by (rewrite D; discriminate). reflexivity.
Qed.

Lemma processCalls_events (calls : list FunctionCall) :
  forall (acc : list FunctionResponse) (s : State T M),
    forallb isLoopEvent (evs (processCalls calls acc s)) = true.
Proof.
  induction calls as [|call rest IH]; intros acc s; [reflexivity|].
  destruct (processCall_shape call s) as ((r & Hr & _) & _).
  simpl processCalls. rewrite (bind_Return _ _ _ _ Hr). cbn [evs].
  now rewrite forallb_app, processCall_events, IH.
Qed.

(** *** The loop *)

Lemma loop_terminal (fuel : nat) (result : Response) (s : State T M) :
  existsb hasFunctionCall result = false ->
  loop (S fuel) result s = ret result s.
Proof. intro H. simpl. now rewrite H. Qed.

Lemma loop_pending (fuel : nat) (result : Response) (s : State T M) :
  existsb hasFunctionCall result = true ->
  loop (S fuel) result s = bind (turn result) (loop fuel) s.
Proof. intro H. simpl. now rewrite H. Qed.

(** How one more turn extends the trace of the loop. *)
Lemma loop_step (fuel : nat) (result : Response) (s : State T M) :
  existsb hasFunctionCall result = true ->
  exists batch reply,
    out (processCalls (functionCallsOf result) [] s) = Return batch /\
    answersTurn batch result /\
    match reply with
    | inl e =>
        evs (loop (S fuel) result s)
        = (evs (processCalls (functionCallsOf result) [] s)
             ++ [Sent (Responses batch) (inl e)])%list /\
        out (loop (S fuel) result s) = Throw e
    | inr next =>
        evs (loop (S fuel) result s)
        = (evs (processCalls (functionCallsOf result) [] s)
             ++ Sent (Responses batch) (inr next)
             :: evs (loop fuel next (st (turn result s))))%list /\
        out (loop (S fuel) result s)
        = out (loop fuel next (st (turn result s))) /\
        st (loop (S fuel) result s)
        = st (loop fuel next (st (turn result s)))
    end.
Proof.
  intro H. rewrite (loop_pending _ _ _ H).
  destruct (turn_eq result s) as (batch & Ho & Ha & Ht).
  exists batch, (snd (sendMessage T (chat s) (Responses batch))).
  split; [exact Ho|]. split; [exact Ha|].
  unfold bind. rewrite Ht. cbn [st evs out].
  destruct (snd (sendMessage T (chat s) (Responses batch))) as [e | next].
  - split; reflexivity.
  - cbn [st evs out]. rewrite <- app_assoc. repeat split; reflexivity.
Qed.

Lemma loop_correlated (fuel : nat) :
  forall (result : Response) (s : State T M),
    correlated result (exchanges (evs (loop fuel result s))).
Proof.
  induction fuel as [|fuel IH]; intros result s; [exact I|].
  destruct (existsb hasFunctionCall result) eqn:E.
  - destruct (loop_step fuel result s E) as (batch & reply & Ho & Ha & H).
    destruct (processCalls_shape (functionCallsOf result) [] s)
      as (_ & _ & _ & _ & _ & Hx & _).
    apply hasFunctionCall_calls in E.
    destruct reply as [e | next].
    + destruct H as (-> & _). rewrite exchanges_app, Hx. simpl.
      split; [now exists batch|]. split; [exact E | reflexivity].
    + destruct H as (-> & _). rewrite exchanges_app, Hx. simpl.
      split; [now exists batch|]. split; [exact E | apply IH].
  - rewrite (loop_terminal _ _ _ E). exact I.
Qed.

Lemma loop_events (fuel : nat) :
  forall (result : Response) (s : State T M),
    forallb isLoopEvent (evs (loop fuel result s)) = true.
Proof.
  induction fuel as [|fuel IH]; intros result s; [reflexivity|].
  destruct (existsb hasFunctionCall result) eqn:E.
  - destruct (loop_step fuel result s E) as (batch & reply & _ & _ & H).
    destruct reply as [e | next].
    + destruct H as (-> & _).
      now rewrite forallb_app, processCalls_events.
    + destruct H as (-> & _).
      rewrite forallb_app, processCalls_events. simpl. apply IH.
  - rewrite (loop_terminal _ _ _ E). reflexivity.
Qed.

(** The loop throws only what [sendMessage] threw, at its last call. *)
Lemma loop_throw (fuel : nat) :
  forall (result : Response) (s : State T M) (e : Exception),
    out (loop fuel result s) = Throw e ->
    exists tr m, evs (loop fuel result s) = (tr ++ [Sent m (inl e)])%list.
Proof.
  induction fuel as [|fuel IH]; intros result s e Ht; [discriminate|].
  destruct (existsb hasFunctionCall result) eqn:E.
  - destruct (loop_step fuel result s E) as (batch & reply & _ & _ & H).
    destruct reply as [e' | next].
    + destruct H as (He & Ho). rewrite Ho in Ht. injection Ht as ->.
      rewrite He. eauto.
    + destruct H as (He & Ho & _). rewrite Ho in Ht.
      destruct (IH _ _ _ Ht) as (tr & m & Htr).
      rewrite He, Htr.
      exists (evs (processCalls (functionCallsOf result) [] s)
                ++ Sent (Responses batch) (inr next) :: tr)%list, m.
      now rewrite <- app_assoc.
  - rewrite (loop_terminal _ _ _ E) in Ht. discriminate.
Qed.

(** The loop returns a turn without function calls: the one it was
    given, or the last one received. *)
Lemma loop_return (fuel : nat) :
  forall (result : Response) (s : State T M) (r : Response),
    out (loop fuel result s) = Return r ->
    existsb hasFunctionCall r = false /\
    ((r = result /\ loop fuel result s = ret result s) \/
     exists tr m, evs (loop fuel result s) = (tr ++ [Sent m (inr r)])%list).
Proof.
  induction fuel as [|fuel IH]; intros result s r Hr; [discriminate|].
  destruct (existsb hasFunctionCall result) eqn:E.
  - destruct (loop_step fuel result s E) as (batch & reply & _ & _ & H).
    destruct reply as [e' | next].
    + destruct H as (_ & Ho). rewrite Ho in Hr. discriminate.
    + destruct H as (He & Ho & _). rewrite Ho in Hr.
      destruct (IH _ _ _ Hr) as (Hn & [(-> & Hl) | (tr & m & Htr)]).
      * split; [exact Hn|]. right. rewrite He, Hl. simpl. eauto.
      * split; [exact Hn|]. right. rewrite He, Htr.
        exists (evs (processCalls (functionCallsOf result) [] s)
                  ++ Sent (Responses batch) (inr next) :: tr)%list, m.
        now rewrite <- app_assoc.
  - rewrite (loop_terminal _ _ _ E) in Hr |- *.
    injection Hr as <-. split; [exact E | now left].
Qed.

(** A failed call of the executor is followed, with no call to the
    transport in between, by the batch that reports it. *)
Lemma loop_failure (fuel : nat) :
  forall (result : Response) (s : State T M)
         (pre post : list Event) (ev : Event) (e : Exception),
    evs (loop fuel result s) = (pre ++ ev :: post)%list ->
    failureOf ev = Some e ->
    message e <> EmptyString ->
    exists mid batch reply rest call,
      post = (mid ++ Sent (Responses batch) reply :: rest)%list /\
      exchanges mid = [] /\
      In {| fr_name := name call; response := ErrorOf (message e) |} batch.
Proof.
  induction fuel as [|fuel IH]; intros result s pre post ev e Hev Hf Hm.
  { destruct pre; discriminate. }
  destruct (existsb hasFunctionCall result) eqn:E.
  2:{ rewrite (loop_terminal _ _ _ E) in Hev. destruct pre; discriminate. }
  destruct (loop_step fuel result s E) as (batch & reply & Ho & _ & H).
  destruct (processCalls_shape (functionCallsOf result) [] s)
    as (_ & _ & _ & _ & _ & Hx & _).
  assert (Hcase :
    exists tail,
      evs (loop (S fuel) result s)
      = (evs (processCalls (functionCallsOf result) [] s)
           ++ Sent (Responses batch) reply :: tail)%list /\
      (tail = [] \/
       exists next, tail = evs (loop fuel next (st (turn result s))))).
  { destruct reply as [e' | next].
    - destruct H as (-> & _). exists []. split; [reflexivity | now left].
    - destruct H as (-> & _). eexists. split; [reflexivity|].
      right. now exists next. }
  destruct Hcase as (tail & Heq & Htail). rewrite Heq in Hev.
  symmetry in Hev.
  destruct (elt_in_app _ _ _ _ _ Hev) as [(mid & Hpc & ->) | (mid & -> & Hr)].
  - assert (Hin : In e (failures
                          (evs (processCalls (functionCallsOf result) [] s)))).
    { rewrite Hpc, failures_app. apply in_or_app. right.
      simpl. rewrite Hf. now left. }
    destruct (processCalls_failure _ _ _ _ _ Ho Hin Hm) as (call & _ & Hb).
    exists mid, batch, reply, tail, call.
    split; [reflexivity|]. split; [|exact Hb].
    rewrite Hpc, exchanges_app in Hx. apply app_eq_nil in Hx.
    destruct Hx as [_ Hx]. simpl in Hx.
    destruct ev; try discriminate Hf; exact Hx.
  - destruct mid as [|x mid]; simpl in Hr; injection Hr as Hx' Hr.
    + subst ev. discriminate Hf.
    + destruct Htail as [Ht | (next & Ht)]; rewrite Ht in Hr.
      * destruct mid; discriminate.
      * eapply IH; eassumption.
Qed.

(** *** The conversation and [run] *)

Lemma conversation_failed (fuel : nat) (prompt : string) (s : State T M)
    (e : Exception) :
  snd (sendMessage T (chat s) (Prompt prompt)) = inl e ->
  conversation fuel prompt s =
    {| st := afterSend (Prompt prompt) s;
       evs := [Sent (Prompt prompt) (inl e)];
       out := Throw e |}.
Proof.
  intro H. unfold conversation, bind, send. cbn [st evs out].
  rewrite H. reflexivity.
Qed.

Lemma conversation_started (fuel : nat) (prompt : string) (s : State T M)
    (first : Response) :
  snd (sendMessage T (chat s) (Prompt prompt)) = inr first ->
  evs (conversation fuel prompt s) =
    (Sent (Prompt prompt) (inr first)
       :: evs (loop fuel first (afterSend (Prompt prompt) s))
       ++ match out (loop fuel first (afterSend (Prompt prompt) s)) with
          | Return r => [Printed blue (finalLine r)]
          | _ => []
          end)%list /\
  out (conversation fuel prompt s) =
    match out (loop fuel first (afterSend (Prompt prompt) s)) with
    | Return _ => Return tt
    | Throw e => Throw e
    | Diverge => Diverge
    end /\
  chat (st (conversation fuel prompt s))
  = chat (st (loop fuel first (afterSend (Prompt prompt) s))).
Proof.
  intro H. unfold conversation, bind, send. cbn [st evs out].
  rewrite H. cbn [st evs out]. fold (afterSend (Prompt prompt) s).
  destruct (out (loop fuel first (afterSend (Prompt prompt) s)));
    cbn [st evs out chat]; rewrite ?app_nil_r; repeat split; reflexivity.
Qed.

Lemma run_eq (fuel : nat) (prompt : string) (s : State T M) :
  evs (run fuel prompt s) =
    (evs (conversation fuel prompt s)
       ++ match out (conversation fuel prompt s) with
          | Return _ => [Closed]
          | Throw e => [Printed red (fatalLine e); Closed]
          | Diverge => []
          end)%list /\
  out (run fuel prompt s) =
    match out (conversation fuel prompt s) with
    | Diverge => Diverge
    | _ => Return tt
    end /\
  chat (st (run fuel prompt s)) = chat (st (conversation fuel prompt s)).
Proof.
  unfold run, finally, tryCatch, print, closeInput.
  destruct (conversation fuel prompt s) as [s' tr [[] | e |]];
    cbn [st evs out chat]; rewrite <- ?app_assoc, ?app_nil_r;
    repeat split; reflexivity.
Qed.

Lemma run_exchanges (fuel : nat) (prompt : string) (s : State T M) :
  exchanges (evs (run fuel prompt s))
  = exchanges (evs (conversation fuel prompt s)).
Proof.
  destruct (run_eq fuel prompt s) as (-> & _).
  rewrite exchanges_app.
  destruct (out (conversation fuel prompt s)); simpl;
    now rewrite app_nil_r.
Qed.

Lemma loop_prints_requests_only (fuel : nat) (result : Response)
    (s : State T M) (c : Colour) (line : string) :
  In (Printed c line) (evs (loop fuel result s)) -> c = yellow.
Proof.
  intro H.
  pose proof (proj1 (forallb_forall _ _) (loop_events fuel result s) _ H)
    as Hl.
  destruct c; [reflexivity | discriminate | discriminate].
Qed.

(** The conversation throws only what [sendMessage] threw, at its last
    call. *)
Lemma conversation_throw (fuel : nat) (prompt : string) (s : State T M)
    (e : Exception) :
  out (conversation fuel prompt s) = Throw e ->
  exists tr m,
    evs (conversation fuel prompt s) = (tr ++ [Sent m (inl e)])%list.
Proof.
  intro Ht.
  destruct (snd (sendMessage T (chat s) (Prompt prompt)))
    as [e' | first] eqn:E.
  - rewrite (conversation_failed fuel prompt s e' E) in Ht |- *.
    injection Ht as ->. exists [], (Prompt prompt). reflexivity.
  - destruct (conversation_started fuel prompt s first E) as (He & Ho & _).
    rewrite Ho in Ht. rewrite He.
    destruct (out (loop fuel first (afterSend (Prompt prompt) s))) eqn:L;
      try discriminate.
    injection Ht as ->.
    destruct (loop_throw _ _ _ _ L) as (tr & m & ->).
    exists (Sent (Prompt prompt) (inr first) :: tr), m.
    now rewrite app_nil_r.
Qed.

(** The model's text is printed once, right after the turn it belongs
    to was received, and that turn has no function call. *)
Lemma conversation_prints_final (fuel : nat) (prompt : string)
    (s : State T M) (line : string) :
  In (Printed blue line) (evs (conversation fuel prompt s)) ->
  exists tr m r,
    evs (conversation fuel prompt s)
    = (tr ++ [Sent m (inr r); Printed blue line])%list /\
    existsb hasFunctionCall r = false /\
    line = finalLine r /\
    out (conversation fuel prompt s) = Return tt.
Proof.
  intro Hin.
  destruct (snd (sendMessage T (chat s) (Prompt prompt)))
    as [e' | first] eqn:E.
  - rewrite (conversation_failed fuel prompt s e' E) in Hin.
    destruct Hin as [Hin | []]. discriminate.
  - destruct (conversation_started fuel prompt s first E) as (He & Ho & _).
    rewrite He in Hin |- *. rewrite Ho.
    destruct Hin as [Hin | Hin]; [discriminate|].
    apply in_app_or in Hin. destruct Hin as [Hin | Hin].
    { apply loop_prints_requests_only in Hin. discriminate. }
    destruct (out (loop fuel first (afterSend (Prompt prompt) s))) eqn:L;
      try contradiction.
    destruct Hin as [Hin | []]. injection Hin as <-.
    destruct (loop_return _ _ _ _ L) as (Hn & [(-> & Hl) | (tr & m & Htr)]).
    + rewrite Hl. exists [], (Prompt prompt), first. repeat split; assumption.
    + rewrite Htr.
      exists (Sent (Prompt prompt) (inr first) :: tr), m, a.
      rewrite <- app_assoc. repeat split; assumption.
Qed.

Lemma run_failure (fuel : nat) (prompt : string) (s : State T M)
    (pre post : list Event) (ev : Event) (e : Exception) :
  evs (run fuel prompt s) = (pre ++ ev :: post)%list ->
  failureOf ev = Some e ->
  message e <> EmptyString ->
  exists mid batch reply rest call,
    post = (mid ++ Sent (Responses batch) reply :: rest)%list /\
    exchanges mid = [] /\
    In {| fr_name := name call; response := ErrorOf (message e) |} batch.
Proof.
  intros Hev Hf Hm.
  destruct (run_eq fuel prompt s) as (He & _). rewrite He in Hev. clear He.
  symmetry in Hev.
  assert (Htail : forall tail : list Event,
            (forall x, In x tail -> failureOf x = None) ->
            forall a b, tail = (a ++ ev :: b)%list -> False).
  { intros tail Ht a b ->.
    rewrite (Ht ev) in Hf by apply in_elt. discriminate. }
  destruct (snd (sendMessage T (chat s) (Prompt prompt)))
    as [e' | first] eqn:E.
  - rewrite (conversation_failed fuel prompt s e' E) in Hev.
    exfalso. cbn [evs out app] in Hev. symmetry in Hev.
    revert Hev. apply Htail.
    intros x [<- | [<- | [<- | []]]]; reflexivity.
  - destruct (conversation_started fuel prompt s first E) as (He & Ho & _).
    rewrite He, Ho in Hev. clear He Ho.
    set (body := evs (loop fuel first (afterSend (Prompt prompt) s))) in *.
    destruct pre as [|x pre]; simpl in Hev; injection Hev as Hx Hev.
    { subst ev. discriminate Hf. }
    rewrite <- app_assoc in Hev.
    destruct (elt_in_app _ _ _ _ _ Hev)
      as [(mid & Hb & ->) | (mid & _ & Hr)].
    + destruct (loop_failure _ _ _ _ _ _ _ Hb Hf Hm)
        as (mid' & batch & reply & rest & call & -> & Hx' & Hin).
      exists mid', batch, reply. eexists. exists call.
      split; [|split; assumption].
      rewrite <- app_assoc. simpl. reflexivity.
    + exfalso. revert Hr. apply Htail.
      intros y Hy. apply in_app_or in Hy.
      destruct (out (loop fuel first (afterSend (Prompt prompt) s)));
        simpl in Hy;
        repeat match goal with
               | H : _ \/ _ |- _ => destruct H
               | H : False |- _ => destruct H
               | H : _ = y |- _ => subst y
               end; reflexivity.
Qed.

End Facts.

(** ** The approval gate *)

(** C1. For every operator input, the branch taken is Approve exactly
    when the input lowercases to [y], Skip exactly when it lowercases to
    [skip], and Deny for every other input; the empty input is denied.
    The gate fails closed: whenever the operator's answer to a request
    does not lowercase to [y], the executor is not called and the call is
    answered with an error; the executor runs, once and after the answer,
    only when it does. *)
Theorem approval_fail_closed (T : Transport) (M : Machine)
    (call : FunctionCall) (s : State T M) (answer : string) :
  (decision answer = Approve <-> JS.toLowerCase answer = "y") /\
  (decision answer = Skip <-> JS.toLowerCase answer = "skip") /\
  (decision answer = Deny <->
     JS.toLowerCase answer <> "y" /\ JS.toLowerCase answer <> "skip") /\
  decision EmptyString = Deny /\
  (JS.toLowerCase (answerGiven call s) <> "y" ->
   filter isExecution (evs (processCall call s)) = [] /\
   st (processCall call s) = afterPrompt call s /\
   exists errorMsg,
     out (processCall call s)
     = Return {| fr_name := name call; response := ErrorOf errorMsg |}) /\
  (JS.toLowerCase (answerGiven call s) = "y" ->
   evs (processCall call s)
   = ([Printed yellow (requestLine call);
       Asked permissionQuery (answerGiven call s)]
        ++ evs (execute call (afterPrompt call s)))%list).
Proof.
  split; [apply decision_Approve|].
  split; [apply decision_Skip|].
  split; [apply decision_Deny|].
  split; [reflexivity|].
  split.
  - intro H.
    assert (Hd : decision (answerGiven call s) <> Approve)
      by (intro Hd; apply decision_Approve in Hd; contradiction).
    rewrite (processCall_refused call s Hd). cbn [st evs out].
    repeat split. eexists. reflexivity.
  - intro H. apply decision_Approve in H.
    now destruct (processCall_approved call s H) as (_ & He & _).
Qed.

(** ** The batch of responses *)

(** C2. In every run the first call to the transport carries the prompt,
    and every later call carries one batch that answers the turn received
    by the call before it: as many function responses as the turn has
    function calls, under the names of the calls in their order.  No call
    to the transport lies between the turn and its batch, and while fuel
    lasts a turn with function calls is always answered by such a batch. *)
Theorem batch_answers_turn (T : Transport) (M : Machine)
    (fuel : nat) (prompt : string) (s : State T M) :
  (exists reply rest,
     exchanges (evs (run fuel prompt s)) = (Prompt prompt, reply) :: rest /\
     match reply with
     | inr first => correlated first rest
     | inl _ => rest = []
     end) /\
  (forall (result : Response) (s' : State T M),
     existsb hasFunctionCall result = true ->
     loop (S fuel) result s' = bind (turn result) (loop fuel) s' /\
     exists batch reply,
       answersTurn batch result /\
       exchanges (evs (processCalls (functionCallsOf result) [] s')) = [] /\
       evs (turn result s')
       = (evs (processCalls (functionCallsOf result) [] s')
            ++ [Sent (Responses batch) reply])%list).
Proof.
  split.
  - rewrite run_exchanges.
    destruct (snd (sendMessage T (chat s) (Prompt prompt))) as [e | first] eqn:E.
    + rewrite (conversation_failed fuel prompt s e E). simpl.
      exists (inl e), []. split; reflexivity.
    + destruct (conversation_started fuel prompt s first E) as (-> & _).
      exists (inr first),
        (exchanges (evs (loop fuel first (afterSend (Prompt prompt) s)))).
      simpl. rewrite exchanges_app.
      replace (exchanges
                 match out (loop fuel first (afterSend (Prompt prompt) s)) with
                 | Return r => [Printed blue (finalLine r)]
                 | _ => []
                 end) with (@nil (Message * (Exception + Response)))
        by (destruct (out (loop fuel first (afterSend (Prompt prompt) s)));
            reflexivity).
      rewrite app_nil_r. split; [reflexivity | apply loop_correlated].
  - intros result s' H. split; [now apply loop_pending|].
    destruct (turn_eq result s') as (batch & _ & Ha & Ht).
    destruct (processCalls_shape (functionCallsOf result) [] s')
      as (_ & _ & _ & _ & _ & Hx & _).
    exists batch, (snd (sendMessage T (chat s') (Responses batch))).
    split; [exact Ha|]. split; [exact Hx|]. now rewrite Ht.
Qed.

(** ** Which turns end the loop *)

Lemma hasFunctionCall_exists (result : Response) :
  existsb hasFunctionCall result = true <->
  exists p call, In p result /\ functionCall p = Some call.
Proof.
  rewrite existsb_exists. split.
  - intros (p & Hin & Hp). unfold hasFunctionCall in Hp.
    destruct (functionCall p) as [call|] eqn:E; [|discriminate].
    now exists p, call.
  - intros (p & call & Hin & Hp). exists p. split; [exact Hin|].
    unfold hasFunctionCall. now rewrite Hp.
Qed.

Lemma hasFunctionCall_ignores_text (result : Response) :
  existsb hasFunctionCall result
  = existsb hasFunctionCall
      (map (fun p => {| text := None; functionCall := functionCall p |})
         result).
Proof.
  induction result as [|p rest IH]; simpl; [reflexivity|].
  now rewrite IH.
Qed.

(** C8. The loop goes on with a turn exactly when one of its parts holds
    a function call; the text of the parts plays no role in the test.  A
    turn with a function call is answered by a batch and prints no model
    text; a turn without one ends the loop.  The model's text is printed
    only for the last turn received, and that turn has no function call. *)
Theorem pending_iff_function_call (T : Transport) (M : Machine)
    (fuel : nat) (result : Response) (s : State T M) :
  (existsb hasFunctionCall result = true <->
   exists p call, In p result /\ functionCall p = Some call) /\
  existsb hasFunctionCall result
  = existsb hasFunctionCall
      (map (fun p => {| text := None; functionCall := functionCall p |})
         result) /\
  (existsb hasFunctionCall result = true ->
   loop (S fuel) result s = bind (turn result) (loop fuel) s /\
   forall c line, In (Printed c line) (evs (turn result s)) -> c = yellow) /\
  (existsb hasFunctionCall result = false ->
   loop (S fuel) result s = ret result s) /\
  (forall prompt line,
     In (Printed blue line) (evs (run fuel prompt s)) ->
     exists tr m r,
       evs (run fuel prompt s)
       = (tr ++ [Sent m (inr r); Printed blue line; Closed])%list /\
       existsb hasFunctionCall r = false /\
       line = finalLine r).
Proof.
  split; [apply hasFunctionCall_exists|].
  split; [apply hasFunctionCall_ignores_text|].
  split; [|split; [apply loop_terminal|]].
  - intro H. split; [now apply loop_pending|].
    intros c line Hin.
    destruct (turn_eq result s) as (batch & _ & _ & Ht).
    rewrite Ht in Hin. cbn [evs] in Hin. apply in_app_or in Hin.
    destruct Hin as [Hin | [Hin | []]]; [|discriminate].
    pose proof (proj1 (forallb_forall _ _)
                  (processCalls_events (functionCallsOf result) [] s) _ Hin)
      as Hl.
    destruct c; [reflexivity | discriminate | discriminate].
  - intros prompt line Hin.
    destruct (run_eq fuel prompt s) as (He & _).
    assert (Hc : In (Printed blue line) (evs (conversation fuel prompt s))).
    { rewrite He in Hin. apply in_app_or in Hin.
      destruct Hin as [Hin | Hin]; [exact Hin|]. exfalso.
      destruct (out (conversation fuel prompt s)); simpl in Hin;
        repeat match goal with
               | H : _ \/ _ |- _ => destruct H
               | H : False |- _ => destruct H
               end; discriminate. }
    destruct (conversation_prints_final fuel prompt s line Hc)
      as (tr & m & r & Htr & Hn & Hl & Ho).
    exists tr, m, r. rewrite He, Ho, Htr, <- app_assoc.
    repeat split; assumption.
Qed.

(** ** What happens to one call *)

Lemma execute_shell (T : Transport) (M : Machine) (call : FunctionCall)
    (s : State T M) (output : string) :
  name call = "run_shell_command" ->
  snd (execSync M (world s) (JS.get "command" (args call))) = inr output ->
  out (execute call s) = Return (truncateOutput output).
Proof.
  intros Hn Hx. unfold execute. rewrite Hn. simpl.
  unfold bind, machineCall, ret. cbn [st evs out]. rewrite Hx. reflexivity.
Qed.

(** C5. An approved [run_shell_command] whose captured output is longer
    than 2000 code units is answered with the first 2000 of them followed
    by the truncation marker, appended once: 2000 plus the length of the
    marker in all.  The marker is a line feed followed by
    [...[OUTPUT TRUNCATED]...], 25 code units, so the text is 2025 code
    units long and is never the bare first 2000.  Output of at most 2000
    code units is returned as it is. *)
Theorem shell_output_truncated (T : Transport) (M : Machine)
    (call : FunctionCall) (s : State T M) (output : string) :
  name call = "run_shell_command" ->
  decision (answerGiven call s) = Approve ->
  snd (execSync M (world (afterPrompt call s)) (JS.get "command" (args call)))
  = inr output ->
  out (processCall call s)
  = Return {| fr_name := name call;
              response := ContentOf (truncateOutput output) |} /\
  (2000 < String.length output ->
   truncateOutput output = JS.substring0 2000 output ++ truncationMarker /\
   String.length (JS.substring0 2000 output) = 2000 /\
   String.length (truncateOutput output)
   = 2000 + String.length truncationMarker) /\
  (String.length output <= 2000 -> truncateOutput output = output) /\
  truncationMarker
  = String (ascii_of_nat 10) "...[OUTPUT TRUNCATED]..." /\
  String.length truncationMarker = 25 /\
  (2000 < String.length output ->
   truncateOutput output
   = JS.substring0 2000 output
       ++ String (ascii_of_nat 10) "...[OUTPUT TRUNCATED]..." /\
   String.length (truncateOutput output) = 2025 /\
   truncateOutput output <> JS.substring0 2000 output).
Proof.
  intros Hn Hd Hx.
  destruct (processCall_approved call s Hd) as (_ & _ & Hr & _).
  split; [apply Hr; now apply execute_shell|].
  assert (Hp : 2000 < String.length output ->
               String.length (JS.substring0 2000 output) = 2000)
    by (intro Hlen; rewrite length_substring0; lia).
  assert (Ht : 2000 < String.length output ->
               truncateOutput output
               = JS.substring0 2000 output ++ truncationMarker).
  { intro Hlen. unfold truncateOutput. apply Nat.ltb_lt in Hlen.
    now rewrite Hlen. }
  split; [|split; [|split; [reflexivity | split; [reflexivity|]]]].
  - intro Hlen. split; [now apply Ht|]. split; [now apply Hp|].
    now rewrite (Ht Hlen), length_append, (Hp Hlen).
  - intro Hlen. unfold truncateOutput. apply Nat.ltb_ge in Hlen.
    now rewrite Hlen.
  - intro Hlen. split; [now apply Ht|].
    assert (L : String.length (truncateOutput output) = 2025)
      by (rewrite (Ht Hlen), length_append, (Hp Hlen); reflexivity).
    split; [exact L|].
    intro E. rewrite E, (Hp Hlen) in L. discriminate L.
Qed.

(** C4, as the code has it.  A call whose answer does not approve is not
    executed: the request is printed, the operator is asked, and nothing
    else happens.  The response is an error whose message is
    [User denied permission.] for Deny and
    [User explicitly skipped this action.] for Skip, each with its full
    stop; state and trace do not depend on which of the two it was. *)
Theorem refused_call_not_executed (T : Transport) (M : Machine)
    (call : FunctionCall) (s : State T M) :
  decision (answerGiven call s) <> Approve ->
  st (processCall call s) = afterPrompt call s /\
  evs (processCall call s)
  = [Printed yellow (requestLine call);
     Asked permissionQuery (answerGiven call s)] /\
  filter isExecution (evs (processCall call s)) = [] /\
  (decision (answerGiven call s) = Deny ->
   out (processCall call s)
   = Return {| fr_name := name call;
               response := ErrorOf "User denied permission." |}) /\
  (decision (answerGiven call s) = Skip ->
   out (processCall call s)
   = Return {| fr_name := name call;
               response := ErrorOf "User explicitly skipped this action." |}).
Proof.
  intro H. rewrite (processCall_refused call s H). cbn [st evs out].
  repeat split; intros ->; reflexivity.
Qed.

(** C7, as the code has it.  An approved call whose name is none of
    [run_shell_command], [write_file] and [read_file] executes nothing
    and is answered with empty content, not with an error. *)
Theorem unknown_action_is_empty_success (T : Transport) (M : Machine)
    (call : FunctionCall) (s : State T M) :
  name call <> "run_shell_command" ->
  name call <> "write_file" ->
  name call <> "read_file" ->
  decision (answerGiven call s) = Approve ->
  processCall call s =
    {| st := afterPrompt call s;
       evs := [Printed yellow (requestLine call);
               Asked permissionQuery (answerGiven call s)];
       out := Return {| fr_name := name call;
                        response := ContentOf EmptyString |} |}.
Proof.
  intros H1 H2 H3 Hd.
  apply String.eqb_neq in H1, H2, H3.
  assert (Hx : execute call (afterPrompt call s)
               = ret EmptyString (afterPrompt call s)).
  { unfold execute. now rewrite H1, H2, H3. }
  destruct (processCall_approved call s Hd) as (Hs & He & Hr & _).
  rewrite Hx in Hs, He, Hr. cbn [st evs out ret] in Hs, He, Hr.
  specialize (Hr _ eq_refl).
  destruct (processCall call s) as [s' tr o]. cbn [st evs out] in *.
  now subst.
Qed.

(** ** What the operator is shown and what the executor is given *)

Lemma execute_shell_events (T : Transport) (M : Machine)
    (call : FunctionCall) (s : State T M) :
  name call = "run_shell_command" ->
  evs (execute call s)
  = [ExecSync (JS.get "command" (args call))
       (snd (execSync M (world s) (JS.get "command" (args call))))].
Proof.
  intro Hn. unfold execute. rewrite Hn. simpl.
  unfold bind, machineCall, ret. cbn [st evs out].
  destruct (snd (execSync M (world s) (JS.get "command" (args call))));
    reflexivity.
Qed.

Lemma execute_write_events (T : Transport) (M : Machine)
    (call : FunctionCall) (s : State T M) (fullPath : string) :
  name call = "write_file" ->
  resolve M (JS.get "path" (args call)) = inr fullPath ->
  snd (mkdirSync M (world s) (dirname M fullPath)) = inr tt ->
  evs (execute call s)
  = [PathResolve (JS.get "path" (args call)) (inr fullPath);
     MkdirSync (dirname M fullPath) (inr tt);
     WriteFileSync fullPath (JS.get "content" (args call))
       (snd (writeFileSync M (fst (mkdirSync M (world s) (dirname M fullPath)))
               fullPath (JS.get "content" (args call))))].
Proof.
  intros Hn Hr Hm. unfold execute. rewrite Hn. simpl.
  unfold bind, pathResolve, machineCall, ret. cbn [st evs out fst snd world].
  rewrite Hr. cbn [st evs out fst snd world]. rewrite Hm.
  cbn [st evs out fst snd world].
  destruct (snd (writeFileSync M (fst (mkdirSync M (world s)
                                         (dirname M fullPath)))
                   fullPath (JS.get "content" (args call)))) as [e | []];
    reflexivity.
Qed.

Lemma execute_read_events (T : Transport) (M : Machine)
    (call : FunctionCall) (s : State T M) (fullPath : string) :
  name call = "read_file" ->
  resolve M (JS.get "path" (args call)) = inr fullPath ->
  evs (execute call s)
  = [PathResolve (JS.get "path" (args call)) (inr fullPath);
     ReadFileSync fullPath (snd (readFileSync M (world s) fullPath))].
Proof.
  intros Hn Hr. unfold execute. rewrite Hn. simpl.
  unfold bind, pathResolve, machineCall, ret. cbn [st evs out fst snd world].
  rewrite Hr. cbn [st evs out fst snd world].
  destruct (snd (readFileSync M (world s) fullPath)); reflexivity.
Qed.

(** C9. When the serialized arguments of a call are longer than 150 code
    units, the line shown to the operator carries their first 150 code
    units followed by [...}] and nothing more of them.  The executor of
    an approved call is given the properties of the arguments object
    themselves: the command, the path and the content as received. *)
Theorem long_arguments_shown_truncated (T : Transport) (M : Machine)
    (call : FunctionCall) (s : State T M) :
  150 < String.length (JS.stringify (args call)) ->
  safeArgsLog (args call)
  = JS.substring0 150 (JS.stringify (args call)) ++ "...}" /\
  String.length (safeArgsLog (args call)) = 154 /\
  (exists rest,
     evs (processCall call s)
     = Printed yellow
         (JS.newline ++ "[AI Action Request]: " ++ name call ++ " -> "
            ++ JS.substring0 150 (JS.stringify (args call)) ++ "...}")
         :: Asked permissionQuery (answerGiven call s) :: rest /\
     (decision (answerGiven call s) = Approve ->
      rest = evs (execute call (afterPrompt call s)))) /\
  (forall s1 : State T M,
     name call = "run_shell_command" ->
     evs (execute call s1)
     = [ExecSync (JS.get "command" (args call))
          (snd (execSync M (world s1) (JS.get "command" (args call))))]) /\
  (forall (s1 : State T M) (fullPath : string),
     name call = "write_file" ->
     resolve M (JS.get "path" (args call)) = inr fullPath ->
     snd (mkdirSync M (world s1) (dirname M fullPath)) = inr tt ->
     evs (execute call s1)
     = [PathResolve (JS.get "path" (args call)) (inr fullPath);
        MkdirSync (dirname M fullPath) (inr tt);
        WriteFileSync fullPath (JS.get "content" (args call))
          (snd (writeFileSync M
                  (fst (mkdirSync M (world s1) (dirname M fullPath)))
                  fullPath (JS.get "content" (args call))))]) /\
  (forall (s1 : State T M) (fullPath : string),
     name call = "read_file" ->
     resolve M (JS.get "path" (args call)) = inr fullPath ->
     evs (execute call s1)
     = [PathResolve (JS.get "path" (args call)) (inr fullPath);
        ReadFileSync fullPath (snd (readFileSync M (world s1) fullPath))]).
Proof.
  intro Hlen.
  assert (Hs : safeArgsLog (args call)
               = JS.substring0 150 (JS.stringify (args call)) ++ "...}").
  { unfold safeArgsLog. apply Nat.ltb_lt in Hlen. now rewrite Hlen. }
  split; [exact Hs|].
  split.
  { rewrite Hs, length_append, length_substring0, Nat.min_l by lia.
    reflexivity. }
  split; [|split; [|split]].
  - destruct (decision (answerGiven call s)) eqn:D.
    + destruct (processCall_approved call s D) as (_ & He & _).
      exists (evs (execute call (afterPrompt call s))).
      rewrite He. unfold requestLine. rewrite Hs. split; reflexivity.
    + exists []. rewrite processCall_refused by (rewrite D; discriminate).
      cbn [evs]. unfold requestLine. rewrite Hs. split; [reflexivity|].
      discriminate.
    + exists []. rewrite processCall_refused by (rewrite D; discriminate).
      cbn [evs]. unfold requestLine. rewrite Hs. split; [reflexivity|].
      discriminate.
  - intros s1. apply execute_shell_events.
  - intros s1 fullPath. apply execute_write_events.
  - intros s1 fullPath. apply execute_read_events.
Qed.

(** ** A scripted conversation *)

(** The loop over a script: [cur] is the turn in hand, [script] what the
    transport has left. *)
Lemma loop_scripted (M : Machine) (batches : list Response) (final : Response) :
  forall (fuel : nat) (cur : Response) (script : list Response) (w : World M),
    cur :: script = (batches ++ [final])%list ->
    Forall (fun b => functionCallsOf b <> []) batches ->
    functionCallsOf final = [] ->
    length batches < fuel ->
    let r := loop fuel cur (onScript script w) in
    out r = Return final /\
    chat (st r) = [] /\
    length (exchanges (evs r)) = length batches /\
    length (answersRead (evs r)) = callsIn batches.
Proof.
  induction batches as [|b batches IH];
    intros fuel cur script w Hs Hb Hf Hfuel r; subst r.
  - simpl in Hs. injection Hs as -> ->.
    destruct fuel as [|fuel]; [inversion Hfuel|].
    rewrite loop_terminal by now apply hasFunctionCall_none.
    repeat split; reflexivity.
  - simpl in Hs. injection Hs as -> ->.
    destruct fuel as [|fuel]; [inversion Hfuel|].
    inversion Hb as [|? ? Hb1 Hb2]; subst.
    rewrite loop_pending by now apply hasFunctionCall_calls.
    set (s := onScript (batches ++ [final])%list w).
    destruct (turn_eq b s) as (batch & _ & _ & Ht).
    destruct (processCalls_shape (functionCallsOf b) [] s)
      as (_ & _ & _ & _ & _ & Hx & Ha).
    destruct (batches ++ [final])%list as [|next script] eqn:E.
    { destruct batches; discriminate. }
    assert (Hr : out (turn b s) = Return next) by (rewrite Ht; reflexivity).
    rewrite (bind_Return _ _ _ _ Hr). cbn [st evs out].
    assert (Hst : st (turn b s)
                  = onScript script
                      (world (st (processCalls (functionCallsOf b) [] s))))
      by (rewrite Ht; reflexivity).
    assert (Hev : evs (turn b s)
                  = (evs (processCalls (functionCallsOf b) [] s)
                       ++ [Sent (Responses batch) (inr next)])%list)
      by (rewrite Ht; reflexivity).
    rewrite Hst, Hev.
    simpl in Hfuel.
    destruct (IH fuel next script
                (world (st (processCalls (functionCallsOf b) [] s)))
                eq_refl Hb2 Hf ltac:(lia)) as (Ho & Hc & Hxs & Has).
    rewrite Ho, Hc.
    rewrite !exchanges_app, !answersRead_app, !length_app, Hx, Hxs, Ha, Has.
    unfold callsIn. simpl. repeat split; lia.
Qed.

(** C6. Over a transport that replays [N] turns with function calls and
    then a turn without, with fuel for [N + 1] tests of the loop
    condition, [run] ends normally: the transport has been called
    [N + 1] times and has nothing left, the operator has been asked once
    for every function call of the [N] turns, and the last thing printed
    before the input is closed is the text of the final turn: a line
    feed, [[Gemini]:], a line feed and the texts of the parts of that
    turn, one after the other. *)
Theorem scripted_run_terminates (M : Machine)
    (batches : list Response) (final : Response)
    (fuel : nat) (prompt : string) (w : World M) :
  Forall (fun b => functionCallsOf b <> []) batches ->
  functionCallsOf final = [] ->
  length batches < fuel ->
  let r := run fuel prompt (onScript (batches ++ [final])%list w) in
  out r = Return tt /\
  length (exchanges (evs r)) = S (length batches) /\
  length (answersRead (evs r)) = callsIn batches /\
  (exists tr, evs r = (tr ++ [Printed blue (finalLine final); Closed])%list) /\
  chat (st r) = [] /\
  (exists tr,
     evs r
     = (tr ++ [Printed blue
                 (String (ascii_of_nat 10)
                    ("[Gemini]:"
                       ++ String (ascii_of_nat 10) (responseText final)));
               Closed])%list) /\
  responseText final
  = String.concat EmptyString
      (map (fun p => match text p with
                     | Some t => t
                     | None => EmptyString
                     end) final) /\
  (forall t, final = [{| text := Some t; functionCall := None |}] ->
             responseText final = t).
Proof.
  intros Hb Hf Hfuel r. subst r.
  assert (Htext : forall t,
            final = [{| text := Some t; functionCall := None |}] ->
            responseText final = t) by (intros t ->; reflexivity).
  set (s := onScript (batches ++ [final])%list w).
  destruct (run_eq fuel prompt s) as (He & Ho & Hc).
  destruct (batches ++ [final])%list as [|first script] eqn:E.
  { destruct batches; discriminate. }
  assert (Hfirst : snd (sendMessage scripted (chat s) (Prompt prompt))
                   = inr first) by reflexivity.
  destruct (conversation_started fuel prompt s first Hfirst)
    as (Hce & Hco & Hcc).
  assert (Hs1 : afterSend (Prompt prompt) s = onScript script w)
    by reflexivity.
  rewrite Hs1 in Hce, Hco, Hcc.
  destruct (loop_scripted M batches final fuel first script w
              (eq_sym E) Hb Hf Hfuel) as (Hlo & Hlc & Hlx & Hla).
  rewrite Hlo in Hce, Hco.
  rewrite He, Ho, Hc, Hcc, Hco, Hce, Hlc.
  split; [reflexivity|].
  cbn [app]. rewrite <- !app_assoc. cbn [app].
  set (body := evs (loop fuel first (onScript script w))) in *.
  change (Sent (Prompt prompt) (inr first)
            :: body ++ [Printed blue (finalLine final); Closed])%list
    with ([Sent (Prompt prompt) (inr first)]
            ++ body ++ [Printed blue (finalLine final); Closed])%list.
  rewrite !exchanges_app, !answersRead_app, !length_app, Hlx, Hla.
  simpl. split; [lia|]. split; [lia|].
  split; [exists (Sent (Prompt prompt) (inr first) :: body); reflexivity|].
  split; [reflexivity|].
  split; [exists (Sent (Prompt prompt) (inr first) :: body); reflexivity|].
  split; [reflexivity | exact Htext].
Qed.

(** * The development at work on the small machine *)

(** The operator approves [ls]; the model then answers in text. *)
Example list_files :
  evs (run 2 "list files"
         (Bench.start [[Bench.requests Bench.lsCall];
                       [Bench.says "Here are your files: notes.txt"]]
            ["y"]))
  = [Sent (Prompt "list files") (inr [Bench.requests Bench.lsCall]);
     Printed yellow (requestLine Bench.lsCall);
     Asked permissionQuery "y";
     ExecSync (Some "ls") (inr "/work/notes.txt");
     Sent (Responses [{| fr_name := "run_shell_command";
                         response := ContentOf "/work/notes.txt" |}])
       (inr [Bench.says "Here are your files: notes.txt"]);
     Printed blue (finalLine [Bench.says "Here are your files: notes.txt"]);
     Closed].
Proof. vm_compute. reflexivity. Qed.

(** Two calls in one turn, the first approved and the second denied: one
    batch of two responses, in the order of the calls. *)
Example approve_then_deny :
  exchanges
    (evs (run 2 "do both"
            (Bench.start [[Bench.requests Bench.lsCall;
                           Bench.requests Bench.writeCall];
                          [Bench.says "Done."]]
               ["y"; "n"])))
  = [(Prompt "do both",
      inr [Bench.requests Bench.lsCall; Bench.requests Bench.writeCall]);
     (Responses [{| fr_name := "run_shell_command";
                    response := ContentOf "/work/notes.txt" |};
                 {| fr_name := "write_file";
                    response := ErrorOf "User denied permission." |}],
      inr [Bench.says "Done."])].
Proof. vm_compute. reflexivity. Qed.

(** An error with an empty message would not count as an error at
    line 201; the errors of Node's modules carry a message. *)
Remark empty_message_is_content (call : FunctionCall) :
  functionResponseOf call EmptyString (Some EmptyString)
  = {| fr_name := name call; response := ContentOf EmptyString |}.
Proof. reflexivity. Qed.

(** C1 on the answer [yes] to a write: nothing is executed. *)
Lemma approval_fail_closed_witness :
  JS.toLowerCase (answerGiven Bench.writeCall (Bench.start [] ["yes"])) <> "y" /\
  filter isExecution
    (evs (processCall Bench.writeCall (Bench.start [] ["yes"]))) = [].
Proof.
  assert (H : JS.toLowerCase
                (answerGiven Bench.writeCall (Bench.start [] ["yes"])) <> "y")
    by (vm_compute; discriminate).
  split; [exact H|].
  apply (proj1 (proj2 (proj2 (proj2 (proj2
           (approval_fail_closed scripted Bench.machine Bench.writeCall
              (Bench.start [] ["yes"]) "yes"))))) H).
Defined.

(** C2 on two turns: three exchanges, the batches of size one and two. *)
Lemma batch_answers_turn_witness :
  exists reply rest,
    exchanges (evs (run 3 "tidy up"
                      (Bench.start (Bench.twoTurns ++ [[Bench.says "Done."]])
                         ["y"; "n"; "Y"])))
    = (Prompt "tidy up", reply) :: rest /\
    match reply with
    | inr first => correlated first rest
    | inl _ => rest = []
    end.
Proof.
  exact (proj1 (batch_answers_turn scripted Bench.machine 3 "tidy up"
                  (Bench.start (Bench.twoTurns ++ [[Bench.says "Done."]])
                     ["y"; "n"; "Y"]))).
Defined.

(** C4 on a denied write. *)
Lemma refused_call_not_executed_witness :
  decision (answerGiven Bench.writeCall (Bench.start [] ["n"])) <> Approve /\
  out (processCall Bench.writeCall (Bench.start [] ["n"]))
  = Return {| fr_name := "write_file";
              response := ErrorOf "User denied permission." |}.
Proof.
  assert (H : decision (answerGiven Bench.writeCall (Bench.start [] ["n"]))
              <> Approve) by (vm_compute; discriminate).
  split; [exact H|].
  apply (refused_call_not_executed scripted Bench.machine
           Bench.writeCall (Bench.start [] ["n"]) H).
  vm_compute. reflexivity.
Defined.

(** C4 as the specification words it: the message of the code ends with a full
    stop, which the quoted message lacks. *)
Lemma refused_message_counterexample :
  decision (answerGiven Bench.writeCall (Bench.start [] ["n"])) = Deny /\
  out (processCall Bench.writeCall (Bench.start [] ["n"]))
  <> Return {| fr_name := "write_file";
               response := ErrorOf "User denied permission" |} /\
  decision (answerGiven Bench.writeCall (Bench.start [] ["skip"])) = Skip /\
  out (processCall Bench.writeCall (Bench.start [] ["skip"]))
  <> Return {| fr_name := "write_file";
               response := ErrorOf "User explicitly skipped this action" |}.
Proof.
  repeat split; try (vm_compute; reflexivity); vm_compute; discriminate.
Qed.

(** C5 on 3000 code units of output: the text sent back is the first
    2000 of them and the marker, 2025 in all. *)
Lemma shell_output_truncated_witness :
  2000 < String.length (Bench.repeatString 1500 ("y" ++ JS.newline)) /\
  out (processCall Bench.yesCall (Bench.start [] ["y"]))
  = Return {| fr_name := "run_shell_command";
              response :=
                ContentOf
                  (truncateOutput
                     (Bench.repeatString 1500 ("y" ++ JS.newline))) |} /\
  truncateOutput (Bench.repeatString 1500 ("y" ++ JS.newline))
  = Bench.repeatString 1000 ("y" ++ JS.newline)
      ++ String (ascii_of_nat 10) "...[OUTPUT TRUNCATED]..." /\
  String.length (truncateOutput (Bench.repeatString 1500 ("y" ++ JS.newline)))
  = 2025.
Proof.
  assert (Hlen : 2000 < String.length
                          (Bench.repeatString 1500 ("y" ++ JS.newline)))
    by (apply Nat.ltb_lt; vm_compute; reflexivity).
  split; [exact Hlen|].
  destruct (shell_output_truncated scripted Bench.machine
              Bench.yesCall (Bench.start [] ["y"])
              (Bench.repeatString 1500 ("y" ++ JS.newline))
              eq_refl)
    as (Ho & _ & _ & _ & _ & Hm).
  - vm_compute. reflexivity.
  - vm_compute. reflexivity.
  - destruct (Hm Hlen) as (Ht & Hl & _).
    split; [exact Ho|]. split; [|exact Hl].
    rewrite Ht. vm_compute. reflexivity.
Defined.

(** C6 on two turns, three function calls and fuel for three tests: the
    run returns after three calls to the transport and three questions,
    and ends by printing the text [Done.] of the final turn. *)
Lemma scripted_run_terminates_witness :
  out (run 3 "tidy up"
         (Bench.start (Bench.twoTurns ++ [[Bench.says "Done."]])
            ["y"; "n"; "Y"]))
  = Return tt /\
  length (exchanges
            (evs (run 3 "tidy up"
                    (Bench.start (Bench.twoTurns ++ [[Bench.says "Done."]])
                       ["y"; "n"; "Y"]))))
  = 3 /\
  length (answersRead
            (evs (run 3 "tidy up"
                    (Bench.start (Bench.twoTurns ++ [[Bench.says "Done."]])
                       ["y"; "n"; "Y"]))))
  = 3 /\
  exists tr,
    evs (run 3 "tidy up"
           (Bench.start (Bench.twoTurns ++ [[Bench.says "Done."]])
              ["y"; "n"; "Y"]))
    = (tr ++ [Printed blue
                (String (ascii_of_nat 10)
                   ("[Gemini]:" ++ String (ascii_of_nat 10) "Done."));
              Closed])%list.
Proof.
  pose proof (scripted_run_terminates Bench.machine Bench.twoTurns
                [Bench.says "Done."] 3 "tidy up"
                {| Bench.answers := ["y"; "n"; "Y"];
                   Bench.files := [("/work/notes.txt", "remember the milk")];
                   Bench.screen := []; Bench.reading := true |}) as H.
  destruct H as (Ho & Hx & Ha & _ & _ & Hl & _ & Ht).
  - repeat constructor; discriminate.
  - reflexivity.
  - simpl. lia.
  - split; [exact Ho|]. split; [exact Hx|]. split; [exact Ha|].
    rewrite (Ht "Done." eq_refl) in Hl. exact Hl.
Defined.

(** C7 on a call the program does not know. *)
Lemma unknown_action_is_empty_success_witness :
  out (processCall Bench.deleteCall (Bench.start [] ["y"]))
  = Return {| fr_name := "delete_file"; response := ContentOf EmptyString |}.
Proof.
  rewrite (unknown_action_is_empty_success scripted Bench.machine
             Bench.deleteCall (Bench.start [] ["y"])).
  - reflexivity.
  - discriminate.
  - discriminate.
  - discriminate.
  - vm_compute. reflexivity.
Defined.

(** C7 as the specification words it: the unknown call is approved, nothing is
    executed, and the response is empty content, not an error. *)
Lemma unknown_action_counterexample :
  ~ In (name Bench.deleteCall)
       ["run_shell_command"; "write_file"; "read_file"] /\
  decision (answerGiven Bench.deleteCall (Bench.start [] ["y"])) = Approve /\
  out (processCall Bench.deleteCall (Bench.start [] ["y"]))
  = Return {| fr_name := "delete_file"; response := ContentOf EmptyString |} /\
  filter isExecution (evs (processCall Bench.deleteCall (Bench.start [] ["y"])))
  = [] /\
  forall msg,
    out (processCall Bench.deleteCall (Bench.start [] ["y"]))
    <> Return {| fr_name := "delete_file"; response := ErrorOf msg |}.
Proof.
  split.
  { intros [H | [H | [H | []]]]; discriminate H. }
  repeat split; try (vm_compute; reflexivity).
  intro msg. vm_compute. discriminate.
Qed.

(** C9 on a write of 200 code units: the operator sees 154 code units of
    arguments, the file receives all 200. *)
Lemma long_arguments_shown_truncated_witness :
  150 < String.length (JS.stringify (args Bench.bigWrite)) /\
  String.length (safeArgsLog (args Bench.bigWrite)) = 154 /\
  evs (execute Bench.bigWrite (Bench.start [] []))
  = [PathResolve (Some "big.txt") (inr "/work/big.txt");
     MkdirSync "/work" (inr tt);
     WriteFileSync "/work/big.txt" (Some (Bench.repeatString 100 "ab"))
       (inr tt)].
Proof.
  assert (Hlen : 150 < String.length (JS.stringify (args Bench.bigWrite)))
    by (apply Nat.ltb_lt; vm_compute; reflexivity).
  split; [exact Hlen|].
  destruct (long_arguments_shown_truncated scripted Bench.machine
              Bench.bigWrite (Bench.start [] []) Hlen)
    as (_ & H154 & _ & _ & Hw & _).
  split; [exact H154|].
  apply (Hw (Bench.start [] []) "/work/big.txt"); reflexivity.
Defined.

(** C8 on a turn that carries both text and a function call. *)
Lemma pending_iff_function_call_witness :
  existsb hasFunctionCall
    [Bench.says "Now the files."; Bench.requests Bench.writeCall] = true /\
  forall c line,
    In (Printed c line)
       (evs (turn [Bench.says "Now the files."; Bench.requests Bench.writeCall]
               (Bench.start [[Bench.says "Done."]] ["y"]))) ->
    c = yellow.
Proof.
  split; [reflexivity|].
  apply (proj1 (proj2 (proj2
           (pending_iff_function_call scripted Bench.machine 1
              [Bench.says "Now the files."; Bench.requests Bench.writeCall]
              (Bench.start [[Bench.says "Done."]] ["y"]))))).
  reflexivity.
Defined.

(** * Further properties of the loop *)

Lemma printed_app (a b : list Event) :
  printed (a ++ b)%list = (printed a ++ printed b)%list.
Proof. apply flat_map_app. Qed.

Lemma printed_execution (tr : list Event) :
  forallb isExecution tr = true -> printed tr = [].
Proof.
  induction tr as [|ev tr IH]; simpl; [reflexivity|].
  intro H. apply andb_true_iff in H. destruct H as [H1 H2].
  destruct ev; try discriminate H1; simpl; now apply IH.
Qed.

Lemma guarded_nil : guarded [].
Proof. intros pre post ev H. destruct pre; discriminate. Qed.

Lemma guarded_app (a b : list Event) :
  guarded a -> guarded b -> guarded (a ++ b).
Proof.
  intros Ha Hb pre post ev H Hx. symmetry in H.
  destruct (elt_in_app _ _ _ _ _ H)
    as [(mid & Hl & _) | (mid & -> & Hr)].
  - exact (Ha _ _ _ Hl Hx).
  - destruct (Hb _ _ _ Hr Hx) as (before & q & answer & m & -> & Hd & Hm).
    exists (a ++ before)%list, q, answer, m.
    rewrite <- app_assoc. repeat split; assumption.
Qed.

Lemma guarded_quiet (tr : list Event) :
  filter isExecution tr = [] -> guarded tr.
Proof.
  intros H pre post ev -> Hx.
  rewrite filter_app in H. simpl in H. rewrite Hx in H.
  apply app_eq_nil in H. destruct H as [_ H]. discriminate H.
Qed.

Section MoreFacts.
Context {T : Transport} {M : Machine}.

Lemma processCall_guarded (call : FunctionCall) (s : State T M) :
  guarded (evs (processCall call s)).
Proof.
  destruct (decision (answerGiven call s)) eqn:D.
  - destruct (processCall_approved call s D) as (_ & He & _).
    destruct (execute_trace call (afterPrompt call s))
      as (_ & _ & _ & _ & _ & Hx).
    rewrite He. intros pre post ev H Hev. symmetry in H.
    destruct (elt_in_app _ _ _ _ _ H) as [(mid & Hl & _) | (mid & -> & Hr)].
    + exfalso. destruct pre as [|x pre]; simpl in Hl; injection Hl as <- Hl.
      { discriminate Hev. }
      destruct pre as [|y pre]; simpl in Hl; injection Hl as <- Hl.
      { discriminate Hev. }
      destruct pre; discriminate Hl.
    + exists [Printed yellow (requestLine call)], permissionQuery,
        (answerGiven call s), mid.
      split; [reflexivity|]. split; [exact D|].
      rewrite Hr, forallb_app in Hx. apply andb_true_iff in Hx. apply Hx.
  - apply guarded_quiet.
    rewrite processCall_refused by (rewrite D; discriminate). reflexivity.
  - apply guarded_quiet.
    rewrite processCall_refused by (rewrite D; discriminate). reflexivity.
Qed.

Lemma processCalls_guarded (calls : list FunctionCall) :
  forall (acc : list FunctionResponse) (s : State T M),
    guarded (evs (processCalls calls acc s)).
Proof.
  induction calls as [|call rest IH]; intros acc s; [apply guarded_nil|].
  destruct (processCall_shape call s) as ((r & Hr & _) & _).
  simpl processCalls. rewrite (bind_Return _ _ _ _ Hr). cbn [evs].
  apply guarded_app; [apply processCall_guarded | apply IH].
Qed.

Lemma loop_guarded (fuel : nat) :
  forall (result : Response) (s : State T M),
    guarded (evs (loop fuel result s)).
Proof.
  induction fuel as [|fuel IH]; intros result s; [apply guarded_nil|].
  destruct (existsb hasFunctionCall result) eqn:E.
  - destruct (loop_step fuel result s E) as (batch & reply & _ & _ & H).
    destruct reply as [e | next].
    + destruct H as (-> & _).
      apply guarded_app; [apply processCalls_guarded|].
      now apply guarded_quiet.
    + destruct H as (-> & _).
      apply guarded_app; [apply processCalls_guarded|].
      apply (guarded_app [_]); [now apply guarded_quiet | apply IH].
  - rewrite (loop_terminal _ _ _ E). apply guarded_nil.
Qed.

Lemma run_guarded (fuel : nat) (prompt : string) (s : State T M) :
  guarded (evs (run fuel prompt s)).
Proof.
  destruct (run_eq fuel prompt s) as (-> & _).
  apply guarded_app.
  - destruct (snd (sendMessage T (chat s) (Prompt prompt)))
      as [e | first] eqn:E.
    + rewrite (conversation_failed fuel prompt s e E).
      now apply guarded_quiet.
    + destruct (conversation_started fuel prompt s first E) as (-> & _).
      apply (guarded_app [_]); [now apply guarded_quiet|].
      apply guarded_app; [apply loop_guarded|].
      apply guarded_quiet.
      destruct (out (loop fuel first (afterSend (Prompt prompt) s)));
        reflexivity.
  - apply guarded_quiet.
    destruct (out (conversation fuel prompt s)); reflexivity.
Qed.

Lemma conversation_not_closed (fuel : nat) (prompt : string) (s : State T M) :
  ~ In Closed (evs (conversation fuel prompt s)).
Proof.
  intro Hin.
  destruct (snd (sendMessage T (chat s) (Prompt prompt)))
    as [e | first] eqn:E.
  - rewrite (conversation_failed fuel prompt s e E) in Hin.
    destruct Hin as [Hin | []]. discriminate.
  - destruct (conversation_started fuel prompt s first E) as (He & _).
    rewrite He in Hin. destruct Hin as [Hin | Hin]; [discriminate|].
    apply in_app_or in Hin. destruct Hin as [Hin | Hin].
    + pose proof (proj1 (forallb_forall _ _) (loop_events fuel first _) _ Hin)
        as Hl. discriminate Hl.
    + destruct (out (loop fuel first (afterSend (Prompt prompt) s)));
        simpl in Hin; [destruct Hin as [Hin | []]; discriminate | | ];
        contradiction.
Qed.

Lemma processCall_printed (call : FunctionCall) (s : State T M) :
  printed (evs (processCall call s)) = [(yellow, requestLine call)].
Proof.
  destruct (decision (answerGiven call s)) eqn:D.
  - destruct (processCall_approved call s D) as (_ & -> & _).
    destruct (execute_trace call (afterPrompt call s))
      as (_ & _ & _ & _ & _ & Hx).
    now rewrite printed_app, (printed_execution _ Hx).
  - rewrite processCall_refused by (rewrite D; discriminate). reflexivity.
  - rewrite processCall_refused by (rewrite D; discriminate). reflexivity.
Qed.

Lemma processCalls_printed (calls : list FunctionCall) :
  forall (acc : list FunctionResponse) (s : State T M),
    printed (evs (processCalls calls acc s))
    = map (fun call => (yellow, requestLine call)) calls.
Proof.
  induction calls as [|call rest IH]; intros acc s; [reflexivity|].
  destruct (processCall_shape call s) as ((r & Hr & _) & _).
  simpl processCalls. rewrite (bind_Return _ _ _ _ Hr). cbn [evs].
  now rewrite printed_app, processCall_printed, IH.
Qed.

Lemma processCall_reports (call : FunctionCall) (s : State T M) :
  exists r,
    out (processCall call s) = Return r /\
    reports (answerGiven call s) r.
Proof.
  destruct (decision (answerGiven call s)) eqn:D.
  - destruct (processCall_shape call s) as ((r & Hr & _) & _).
    exists r. split; [exact Hr|].
    split; intro H; rewrite D in H; discriminate H.
  - rewrite processCall_refused by (rewrite D; discriminate).
    unfold reports. rewrite D.
    eexists. split; [reflexivity|].
    split; intro H; [discriminate H | reflexivity].
  - rewrite processCall_refused by (rewrite D; discriminate).
    unfold reports. rewrite D.
    eexists. split; [reflexivity|].
    split; intro H; [reflexivity | discriminate H].
Qed.

Lemma processCalls_reports (calls : list FunctionCall) :
  forall (acc : list FunctionResponse) (s : State T M),
  exists batch,
    out (processCalls calls acc s) = Return (acc ++ batch)%list /\
    Forall2 reports (answersRead (evs (processCalls calls acc s))) batch.
Proof.
  induction calls as [|call rest IH]; intros acc s.
  - exists []. simpl. rewrite app_nil_r. split; [reflexivity | constructor].
  - destruct (processCall_reports call s) as (r & Hr & Hrep).
    destruct (processCall_shape call s) as (_ & _ & _ & Ha).
    destruct (IH (acc ++ [r])%list (st (processCall call s)))
      as (batch & Ho & Hf).
    exists (r :: batch). simpl processCalls.
    rewrite (bind_Return _ _ _ _ Hr). cbn [st evs out].
    rewrite answersRead_app, Ha, Ho, <- app_assoc. simpl.
    split; [reflexivity | now constructor].
Qed.

End MoreFacts.

(** X1. The input is closed on every path out of [run]: when [run]
    returns, after the final text or after a fatal error, [rl.close] is
    its last call and its only one; while the loop has not ended the
    input stays open. *)
Theorem input_closed_on_every_exit (T : Transport) (M : Machine)
    (fuel : nat) (prompt : string) (s : State T M) :
  (out (run fuel prompt s) = Return tt /\
   (exists tr, evs (run fuel prompt s) = (tr ++ [Closed])%list /\
               ~ In Closed tr) /\
   exists w, world (st (run fuel prompt s)) = rlClose M w) \/
  (out (run fuel prompt s) = Diverge /\
   ~ In Closed (evs (run fuel prompt s))).
Proof.
  pose proof (conversation_not_closed fuel prompt s) as Hn.
  destruct (run_eq fuel prompt s) as (He & Ho & _).
  assert (Hw : out (conversation fuel prompt s) <> Diverge ->
               exists w, world (st (run fuel prompt s)) = rlClose M w).
  { unfold run, finally, tryCatch, print, closeInput.
    destruct (conversation fuel prompt s) as [s' tr [[] | e |]];
      cbn [st evs out world]; intro H;
      [eexists; reflexivity | eexists; reflexivity | now contradiction H]. }
  rewrite He, Ho.
  destruct (out (conversation fuel prompt s)) as [[] | e |].
  - left. split; [reflexivity|]. split; [|apply Hw; discriminate].
    exists (evs (conversation fuel prompt s)). now split.
  - left. split; [reflexivity|]. split; [|apply Hw; discriminate].
    exists (evs (conversation fuel prompt s) ++ [Printed red (fatalLine e)])%list.
    rewrite <- app_assoc. split; [reflexivity|].
    intro H. apply in_app_or in H. destruct H as [H | [H | []]];
      [contradiction | discriminate].
  - right. split; [reflexivity|]. now rewrite app_nil_r.
Qed.

Lemma answersRead_In (tr : list Event) (q a : string) :
  In (Asked q a) tr -> In a (answersRead tr).
Proof.
  intro H. unfold answersRead. apply in_flat_map.
  exists (Asked q a). split; [exact H | now left].
Qed.

(** X2. Nothing is executed without approval.  In the trace of every
    run, each call of the executor (shell, path, directory, file) comes
    after an answer that lowercases to [y], with only calls of the
    executor in between; a run in which no answer approves executes
    nothing at all. *)
Theorem execution_needs_approval (T : Transport) (M : Machine)
    (fuel : nat) (prompt : string) (s : State T M) :
  (forall (pre post : list Event) (ev : Event),
     evs (run fuel prompt s) = (pre ++ ev :: post)%list ->
     isExecution ev = true ->
     exists before query answer mid,
       pre = (before ++ Asked query answer :: mid)%list /\
       JS.toLowerCase answer = "y" /\
       forallb isExecution mid = true) /\
  (Forall (fun a => JS.toLowerCase a <> "y")
     (answersRead (evs (run fuel prompt s))) ->
   filter isExecution (evs (run fuel prompt s)) = []).
Proof.
  assert (G : forall (pre post : list Event) (ev : Event),
             evs (run fuel prompt s) = (pre ++ ev :: post)%list ->
             isExecution ev = true ->
             exists before query answer mid,
               pre = (before ++ Asked query answer :: mid)%list /\
               JS.toLowerCase answer = "y" /\
               forallb isExecution mid = true).
  { intros pre post ev H Hx.
    destruct (run_guarded fuel prompt s pre post ev H Hx)
      as (before & q & a & mid & Hp & Hd & Hm).
    exists before, q, a, mid. split; [exact Hp|].
    split; [now apply decision_Approve | exact Hm]. }
  split; [exact G|].
  intro Hall.
  destruct (filter isExecution (evs (run fuel prompt s))) as [|ev l] eqn:F;
    [reflexivity|]. exfalso.
  assert (Hin : In ev (filter isExecution (evs (run fuel prompt s))))
    by (rewrite F; now left).
  apply filter_In in Hin. destruct Hin as [Hin Hx].
  apply in_split in Hin. destruct Hin as (pre & post & Heq).
  destruct (G pre post ev Heq Hx) as (before & q & a & mid & -> & Hy & _).
  rewrite Forall_forall in Hall. apply (Hall a); [|exact Hy].
  apply (answersRead_In _ q). rewrite Heq.
  apply in_or_app. left. apply in_elt.
Qed.

(** X3. Within a turn the requests are shown in the order of the
    function calls, one line for each and nothing else printed, and the
    operator is asked once for each. *)
Theorem requests_shown_in_order (T : Transport) (M : Machine)
    (result : Response) (s : State T M) :
  printed (evs (turn result s))
  = map (fun call => (yellow, requestLine call)) (functionCallsOf result) /\
  length (answersRead (evs (turn result s)))
  = length (functionCallsOf result).
Proof.
  destruct (turn_eq result s) as (batch & _ & _ & ->). cbn [evs].
  destruct (processCalls_shape (functionCallsOf result) [] s)
    as (_ & _ & _ & _ & _ & _ & Ha).
  rewrite printed_app, answersRead_app, length_app, processCalls_printed, Ha.
  simpl. rewrite app_nil_r. split; [reflexivity | lia].
Qed.

(** X4. The batch sent after a turn reports the answers position by
    position: the response at the place of an answer that denied is the
    denial error, at the place of an answer that skipped the skip
    error. *)
Theorem responses_report_answers (T : Transport) (M : Machine)
    (result : Response) (s : State T M) :
  exists batch reply,
    exchanges (evs (turn result s)) = [(Responses batch, reply)] /\
    Forall2 reports (answersRead (evs (turn result s))) batch.
Proof.
  destruct (turn_eq result s) as (batch & Ho & _ & ->). cbn [evs].
  destruct (processCalls_shape (functionCallsOf result) [] s)
    as (_ & _ & _ & _ & _ & Hx & _).
  destruct (processCalls_reports (functionCallsOf result) [] s)
    as (batch' & Ho' & Hf).
  rewrite Ho in Ho'. injection Ho' as ->.
  exists batch', (snd (sendMessage T (chat s) (Responses batch'))).
  rewrite exchanges_app, answersRead_app, Hx. simpl.
  rewrite app_nil_r. split; [reflexivity | exact Hf].
Qed.

(** X5. The content of a file read by an approved [read_file] is
    returned whole, whatever its length: the bound of 2000 code units
    applies to shell output only. *)
Theorem read_file_not_truncated (T : Transport) (M : Machine)
    (call : FunctionCall) (s : State T M) (fullPath data : string) :
  name call = "read_file" ->
  decision (answerGiven call s) = Approve ->
  resolve M (JS.get "path" (args call)) = inr fullPath ->
  snd (readFileSync M (world (afterPrompt call s)) fullPath) = inr data ->
  out (processCall call s)
  = Return {| fr_name := name call; response := ContentOf data |}.
Proof.
  intros Hn Hd Hr Hx.
  destruct (processCall_approved call s Hd) as (_ & _ & Ho & _).
  apply Ho. unfold execute. rewrite Hn. simpl.
  unfold bind, pathResolve, machineCall. cbn [st evs out fst snd world].
  rewrite Hr. cbn [st evs out fst snd world]. now rewrite Hx.
Qed.

(** X6. [write_file] writes only to a path that resolved and whose
    directory was made, and writes the content property as received; when
    it completes, the file was written and the text returned names the
    path as the model gave it. *)
Theorem write_needs_path_and_directory (T : Transport) (M : Machine)
    (call : FunctionCall) (s : State T M) :
  name call = "write_file" ->
  (forall p d reply,
     In (WriteFileSync p d reply) (evs (execute call s)) ->
     resolve M (JS.get "path" (args call)) = inr p /\
     snd (mkdirSync M (world s) (dirname M p)) = inr tt /\
     d = JS.get "content" (args call)) /\
  (forall output,
     out (execute call s) = Return output ->
     output = "Successfully wrote file: "
                ++ JS.interpolate (JS.get "path" (args call)) /\
     exists p,
       In (WriteFileSync p (JS.get "content" (args call)) (inr tt))
          (evs (execute call s))).
Proof.
  intro Hn. unfold execute. rewrite Hn. simpl.
  unfold bind, pathResolve, machineCall, ret. cbn [st evs out fst snd world].
  destruct (resolve M (JS.get "path" (args call))) as [e | p0] eqn:R;
    cbn [st evs out fst snd world app].
  { split.
    - intros p d reply [H | []]. discriminate H.
    - intros output H. discriminate H. }
  destruct (snd (mkdirSync M (world s) (dirname M p0))) as [e | []] eqn:D;
    cbn [st evs out fst snd world app].
  { split.
    - intros p d reply [H | [H | []]]; discriminate H.
    - intros output H. discriminate H. }
  destruct (snd (writeFileSync M (fst (mkdirSync M (world s) (dirname M p0)))
                   p0 (JS.get "content" (args call)))) as [e | []] eqn:W;
    cbn [st evs out fst snd world app].
  - split.
    + intros p d reply [H | [H | [H | []]]]; try discriminate H.
      injection H as <- <- _. repeat split. exact D.
    + intros output H. discriminate H.
  - split.
    + intros p d reply [H | [H | [H | []]]]; try discriminate H.
      injection H as <- <- _. repeat split. exact D.
    + intros output H. injection H as <-. split; [reflexivity|].
      exists p0. right. right. now left.
Qed.

(** ** Bounds on what is shown and returned *)

Lemma substring0_short (n : nat) (s : string) :
  String.length s <= n -> JS.substring0 n s = s.
Proof.
  unfold JS.substring0. revert s.
  induction n as [|n IH]; intros [|c s] H; simpl in *;
    try reflexivity; try lia.
  rewrite IH by lia. reflexivity.
Qed.

Lemma substring0_append_long (n : nat) (a b : string) :
  n <= String.length a -> JS.substring0 n (a ++ b) = JS.substring0 n a.
Proof.
  unfold JS.substring0. revert a.
  induction n as [|n IH]; intros [|c a] H; simpl in *;
    try reflexivity; try lia.
  - destruct b; reflexivity.
  - rewrite IH by lia. reflexivity.
Qed.

Lemma substring0_idem (n : nat) (s : string) :
  JS.substring0 n (JS.substring0 n s) = JS.substring0 n s.
Proof.
  unfold JS.substring0. revert s.
  induction n as [|n IH]; intros [|c s]; simpl; try reflexivity.
  now rewrite IH.
Qed.


(** X8. The arguments shown to the operator never take more than 154
    code units, and their first 150 code units are those of the
    serialized arguments. *)
Theorem shown_arguments_bounded (a : JS.object) :
  String.length (safeArgsLog a) <= 154 /\
  JS.substring0 150 (safeArgsLog a) = JS.substring0 150 (JS.stringify a).
Proof.
  unfold safeArgsLog.
  destruct (Nat.ltb 150 (String.length (JS.stringify a))) eqn:E.
  - apply Nat.ltb_lt in E. split.
    + rewrite length_append, length_substring0, Nat.min_l by lia.
      simpl. lia.
    + rewrite substring0_append_long
        by (rewrite length_substring0, Nat.min_l; lia).
      apply substring0_idem.
  - apply Nat.ltb_ge in E. split; [lia | reflexivity].
Qed.

Lemma printable_append (a b : string) :
  printable (a ++ b) = printable a && printable b.
Proof.
  induction a as [|c a IH]; simpl; [reflexivity|].
  now rewrite IH, andb_assoc.
Qed.

Lemma printable_substring0 (n : nat) (s : string) :
  printable s = true -> printable (JS.substring0 n s) = true.
Proof.
  unfold JS.substring0. revert s.
  induction n as [|n IH]; intros [|c s] H; simpl in *; try reflexivity.
  apply andb_true_iff in H. destruct H as [H1 H2].
  now rewrite H1, IH.
Qed.

Lemma printable_quoteUnit (c : ascii) : printable (JS.quoteUnit c) = true.
Proof.
  destruct c as [[] [] [] [] [] [] [] []]; vm_compute; reflexivity.
Qed.

Lemma printable_quote (s : string) : printable (JS.quote s) = true.
Proof.
  induction s as [|c s IH]; simpl; [reflexivity|].
  now rewrite printable_append, printable_quoteUnit, IH.
Qed.

Lemma printable_quoteJSONString (s : string) :
  printable (JS.quoteJSONString s) = true.
Proof.
  unfold JS.quoteJSONString. simpl.
  now rewrite printable_append, printable_quote.
Qed.

Lemma printable_members (a : JS.object) : printable (JS.members a) = true.
Proof.
  induction a as [|[k v] a IH]; [reflexivity|].
  destruct a as [|kv a].
  - cbn [JS.members].
    now rewrite !printable_append, !printable_quoteJSONString.
  - change (JS.members ((k, v) :: kv :: a))
      with (JS.quoteJSONString k ++ ":" ++ JS.quoteJSONString v ++ ","
              ++ JS.members (kv :: a)).
    now rewrite !printable_append, !printable_quoteJSONString, IH.
Qed.

(** X9. Whatever the arguments of a call hold, their serialized form and
    the form shown to the operator contain no control character: line
    breaks and the like arrive escaped, so the arguments cannot break the
    request line. *)
Theorem shown_arguments_printable (a : JS.object) :
  printable (JS.stringify a) = true /\
  printable (safeArgsLog a) = true.
Proof.
  assert (H : printable (JS.stringify a) = true).
  { unfold JS.stringify.
    now rewrite !printable_append, printable_members. }
  split; [exact H|]. unfold safeArgsLog.
  destruct (Nat.ltb 150 (String.length (JS.stringify a))); [|exact H].
  now rewrite printable_append, printable_substring0.
Qed.

(** * The command line *)

Lemma indexOf_first (x : string) (pre post : list string) :
  ~ In x pre -> Cli.indexOf x (pre ++ x :: post) = Some (length pre).
Proof.
  induction pre as [|y pre IH]; intro H; simpl.
  - now rewrite String.eqb_refl.
  - destruct (String.eqb_spec y x) as [-> | _].
    + exfalso. apply H. now left.
    + rewrite IH; [reflexivity|]. intro Hin. apply H. now right.
Qed.

Lemma indexOf_absent (x : string) (a : list string) :
  ~ In x a -> Cli.indexOf x a = None.
Proof.
  induction a as [|y a IH]; intro H; simpl; [reflexivity|].
  destruct (String.eqb_spec y x) as [-> | _].
  - exfalso. apply H. now left.
  - rewrite IH; [reflexivity|]. intro Hin. apply H. now right.
Qed.

Lemma splice2_pair (pre post : list string) (x v : string) :
  Cli.splice2 (length pre) (pre ++ x :: v :: post) = (pre ++ post)%list.
Proof.
  unfold Cli.splice2.
  rewrite firstn_app, firstn_all, Nat.sub_diag. simpl firstn.
  rewrite app_nil_r, skipn_app, skipn_all2 by lia.
  replace (length pre + 2 - length pre) with 2 by lia. reflexivity.
Qed.

Lemma splice2_last (pre : list string) (x : string) :
  Cli.splice2 (length pre) (pre ++ [x]) = pre.
Proof.
  unfold Cli.splice2.
  rewrite firstn_app, firstn_all, Nat.sub_diag. simpl firstn.
  rewrite app_nil_r, skipn_all2; [apply app_nil_r|].
  rewrite length_app. simpl. lia.
Qed.

(** The first occurrence of a flag goes with the word after it. *)
Lemma stripFlag_pair (flag v : string) (pre post : list string) :
  ~ In flag pre ->
  Cli.stripFlag flag (pre ++ flag :: v :: post) = (pre ++ post)%list.
Proof.
  intro H. unfold Cli.stripFlag. rewrite indexOf_first by exact H.
  apply splice2_pair.
Qed.

Lemma stripFlag_last (flag : string) (pre : list string) :
  ~ In flag pre -> Cli.stripFlag flag (pre ++ [flag]) = pre.
Proof.
  intro H. unfold Cli.stripFlag. rewrite indexOf_first by exact H.
  apply splice2_last.
Qed.

Lemma stripFlag_absent (flag : string) (a : list string) :
  ~ In flag a -> Cli.stripFlag flag a = a.
Proof.
  intro H. unfold Cli.stripFlag. now rewrite indexOf_absent.
Qed.

Lemma flagValue_pair (flag v : string) (pre post : list string) :
  ~ In flag pre ->
  Cli.flagValue flag (pre ++ flag :: v :: post) = Some v.
Proof.
  intro H. unfold Cli.flagValue. rewrite indexOf_first by exact H.
  assert (L : Nat.ltb (length pre + 1)
                (length (pre ++ flag :: v :: post)) = true).
  { apply Nat.ltb_lt. rewrite length_app. simpl. lia. }
  rewrite L, nth_error_app2 by lia.
  replace (length pre + 1 - length pre) with 1 by lia. reflexivity.
Qed.

Lemma flagValue_last (flag : string) (pre : list string) :
  ~ In flag pre -> Cli.flagValue flag (pre ++ [flag]) = None.
Proof.
  intro H. unfold Cli.flagValue. rewrite indexOf_first by exact H.
  assert (L : Nat.ltb (length pre + 1) (length (pre ++ [flag])) = false).
  { apply Nat.ltb_ge. rewrite length_app. simpl. lia. }
  now rewrite L.
Qed.

Lemma flagValue_absent (flag : string) (a : list string) :
  ~ In flag a -> Cli.flagValue flag a = None.
Proof.
  intro H. unfold Cli.flagValue. now rewrite indexOf_absent.
Qed.

Lemma not_in_app {A} (x : A) (a b : list A) :
  ~ In x a -> ~ In x b -> ~ In x (a ++ b).
Proof. intros Ha Hb H. apply in_app_or in H. tauto. Qed.

Lemma not_in_cons {A} (x y : A) (a : list A) :
  y <> x -> ~ In x a -> ~ In x (y :: a).
Proof. intros Hy Ha [H | H]; [now apply Hy | now apply Ha]. Qed.

Lemma concat_space_empty (l : list string) :
  String.concat " " l = EmptyString <-> l = [] \/ l = [EmptyString].
Proof.
  split.
  - destruct l as [|x [|y r]]; simpl; intro H.
    + now left.
    + right. now subst.
    + exfalso. apply (f_equal String.length) in H.
      rewrite length_append in H. simpl in H. lia.
  - intros [-> | ->]; reflexivity.
Qed.

Ltac no_flag :=
  let H := fresh in
  intro H; simpl in *; repeat (rewrite in_app_iff in H; simpl in H);
  intuition (try congruence; try discriminate).

(** X10. A command line written as the usage line says is understood as
    meant.  With [-m alias] and [-c name] given at most once each, in
    either order and anywhere among the words, the alias and the context
    name read at the top of the file are the words after the flags, and
    the prompt is made of the other words that do not start with a dash;
    a flag that is absent leaves its default. *)
Theorem command_line_understood (config : Cli.Config)
    (node script alias ctx : string) (pre mid post : list string) :
  ~ In "-m" [node; script] -> ~ In "-c" [node; script] ->
  ~ In "-m" (pre ++ mid ++ post) -> ~ In "-c" (pre ++ mid ++ post) ->
  let words := filter (fun arg => negb (Cli.startsWithDash arg))
                 (pre ++ mid ++ post) in
  (alias <> "-c" ->
   let argv := node :: script
                 :: pre ++ "-m" :: alias :: mid ++ "-c" :: ctx :: post in
   Cli.selectedModelAlias config argv = alias /\
   Cli.contextName argv = ctx /\
   Cli.promptWords argv = words) /\
  (ctx <> "-m" ->
   let argv := node :: script
                 :: pre ++ "-c" :: ctx :: mid ++ "-m" :: alias :: post in
   Cli.selectedModelAlias config argv = alias /\
   Cli.contextName argv = ctx /\
   Cli.promptWords argv = words) /\
  (alias <> "-c" ->
   let argv := node :: script :: pre ++ "-m" :: alias :: mid ++ post in
   Cli.selectedModelAlias config argv = alias /\
   Cli.contextName argv = "default" /\
   Cli.promptWords argv = words) /\
  (ctx <> "-m" ->
   let argv := node :: script :: pre ++ "-c" :: ctx :: mid ++ post in
   Cli.selectedModelAlias config argv = Cli.defaultModel config /\
   Cli.contextName argv = ctx /\
   Cli.promptWords argv = words) /\
  (let argv := node :: script :: pre ++ mid ++ post in
   Cli.selectedModelAlias config argv = Cli.defaultModel config /\
   Cli.contextName argv = "default" /\
   Cli.promptWords argv = words).
Proof.
  intros Hm0 Hc0 Hm Hc words.
  assert (Hn : forall f, ~ In f [node; script] ->
                 f <> node /\ f <> script).
  { intros f H. split; intro E; apply H; subst; simpl; auto. }
  destruct (Hn _ Hm0) as [Hmn Hms]. destruct (Hn _ Hc0) as [Hcn Hcs].
  assert (Hmp : ~ In "-m" pre /\ ~ In "-m" mid /\ ~ In "-m" post).
  { repeat split; intro H; apply Hm; rewrite !in_app_iff; auto. }
  assert (Hcp : ~ In "-c" pre /\ ~ In "-c" mid /\ ~ In "-c" post).
  { repeat split; intro H; apply Hc; rewrite !in_app_iff; auto. }
  destruct Hmp as (Hm1 & Hm2 & Hm3). destruct Hcp as (Hc1 & Hc2 & Hc3).
  assert (Pm : ~ In "-m" (node :: script :: pre)).
  { apply not_in_cons; [congruence|]. apply not_in_cons; [congruence|].
    exact Hm1. }
  assert (Pc : ~ In "-c" (node :: script :: pre)).
  { apply not_in_cons; [congruence|]. apply not_in_cons; [congruence|].
    exact Hc1. }
  unfold Cli.selectedModelAlias, Cli.contextName, Cli.promptWords.
  cbn [skipn].
  split; [|split; [|split; [|split]]].
  - intros Ha.
    change (node :: script
              :: pre ++ "-m" :: alias :: mid ++ "-c" :: ctx :: post)%list
      with ((node :: script :: pre)
              ++ "-m" :: alias :: mid ++ "-c" :: ctx :: post)%list.
    rewrite flagValue_pair by exact Pm.
    replace ((node :: script :: pre)
               ++ "-m" :: alias :: mid ++ "-c" :: ctx :: post)%list
      with (((node :: script :: pre) ++ "-m" :: alias :: mid)
              ++ "-c" :: ctx :: post)%list
      by (rewrite <- app_assoc; reflexivity).
    rewrite flagValue_pair.
    2:{ no_flag. }
    rewrite stripFlag_pair by exact Hm1.
    rewrite app_assoc, stripFlag_pair by no_flag.
    rewrite <- app_assoc. repeat split.
  - intros Hx.
    replace (node :: script
               :: pre ++ "-c" :: ctx :: mid ++ "-m" :: alias :: post)%list
      with (((node :: script :: pre) ++ "-c" :: ctx :: mid)
              ++ "-m" :: alias :: post)%list
      by (rewrite <- app_assoc; reflexivity).
    rewrite flagValue_pair.
    2:{ no_flag. }
    rewrite <- app_assoc.
    change ((node :: script :: pre)
              ++ ("-c" :: ctx :: mid) ++ "-m" :: alias :: post)%list
      with ((node :: script :: pre)
              ++ "-c" :: ctx :: mid ++ "-m" :: alias :: post)%list.
    rewrite flagValue_pair by exact Pc.
    replace (pre ++ "-c" :: ctx :: mid ++ "-m" :: alias :: post)%list
      with ((pre ++ "-c" :: ctx :: mid) ++ "-m" :: alias :: post)%list
      by (rewrite <- app_assoc; reflexivity).
    rewrite stripFlag_pair.
    2:{ no_flag. }
    rewrite <- app_assoc.
    change (pre ++ ("-c" :: ctx :: mid) ++ post)%list
      with (pre ++ "-c" :: ctx :: mid ++ post)%list.
    rewrite stripFlag_pair by exact Hc1. repeat split.
  - intros Ha.
    change (node :: script :: pre ++ "-m" :: alias :: mid ++ post)%list
      with ((node :: script :: pre) ++ "-m" :: alias :: mid ++ post)%list.
    rewrite flagValue_pair by exact Pm.
    rewrite flagValue_absent.
    2:{ no_flag. }
    rewrite stripFlag_pair by exact Hm1.
    rewrite stripFlag_absent by exact Hc. repeat split.
  - intros Hx.
    change (node :: script :: pre ++ "-c" :: ctx :: mid ++ post)%list
      with ((node :: script :: pre) ++ "-c" :: ctx :: mid ++ post)%list.
    rewrite flagValue_pair by exact Pc.
    rewrite flagValue_absent.
    2:{ no_flag. }
    rewrite (stripFlag_absent "-m").
    2:{ no_flag. }
    rewrite stripFlag_pair by exact Hc1. repeat split.
  - idtac.
    change (node :: script :: pre ++ mid ++ post)%list
      with ((node :: script :: pre) ++ mid ++ post)%list.
    rewrite !flagValue_absent by no_flag.
    rewrite (stripFlag_absent "-m") by exact Hm.
    rewrite stripFlag_absent by exact Hc. repeat split.
Qed.

(** X11. The usage line is shown, and nothing is sent to the model,
    exactly when no word is left for the prompt or a single empty word
    is; otherwise the conversation starts with the words joined by
    spaces, which is then not empty. *)
Theorem usage_exactly_without_words (argv : list string) :
  (Cli.entry argv = Cli.Usage Cli.usageLine <->
   Cli.promptWords argv = [] \/ Cli.promptWords argv = [EmptyString]) /\
  (forall p, Cli.entry argv = Cli.Converse p ->
     p = String.concat " " (Cli.promptWords argv) /\ p <> EmptyString).
Proof.
  unfold Cli.entry, Cli.userPromptOf.
  destruct (String.eqb_spec (String.concat " " (Cli.promptWords argv))
              EmptyString) as [E | E].
  - split.
    + split; [intros _; now apply concat_space_empty | reflexivity].
    + intros p H. discriminate H.
  - split.
    + split; [discriminate|]. intro H. apply concat_space_empty in H.
      contradiction.
    + intros p H. injection H as <-. now split.
Qed.

(** X12. A flag given as the last word has no value: the default stays,
    and only the flag itself is taken out of the words. *)
Theorem flag_without_value (config : Cli.Config)
    (node script : string) (pre : list string) :
  ~ In "-m" (node :: script :: pre) ->
  ~ In "-c" (node :: script :: pre) ->
  (Cli.selectedModelAlias config (node :: script :: pre ++ ["-m"])
   = Cli.defaultModel config /\
   Cli.promptWords (node :: script :: pre ++ ["-m"])
   = filter (fun arg => negb (Cli.startsWithDash arg)) pre) /\
  (Cli.contextName (node :: script :: pre ++ ["-c"]) = "default" /\
   Cli.promptWords (node :: script :: pre ++ ["-c"])
   = filter (fun arg => negb (Cli.startsWithDash arg)) pre).
Proof.
  intros Hm Hc.
  assert (Hm1 : ~ In "-m" pre) by (intro H; apply Hm; simpl; auto).
  assert (Hc1 : ~ In "-c" pre) by (intro H; apply Hc; simpl; auto).
  unfold Cli.selectedModelAlias, Cli.contextName, Cli.promptWords.
  cbn [skipn]. split; split.
  - change (node :: script :: pre ++ ["-m"])%list
      with ((node :: script :: pre) ++ ["-m"])%list.
    now rewrite flagValue_last.
  - rewrite stripFlag_last by exact Hm1.
    now rewrite stripFlag_absent.
  - change (node :: script :: pre ++ ["-c"])%list
      with ((node :: script :: pre) ++ ["-c"])%list.
    now rewrite flagValue_last.
  - rewrite (stripFlag_absent "-m") by no_flag.
    now rewrite stripFlag_last.
Qed.

(** X13. The two readings of the command line part ways when [-c]
    stands where the alias of [-m] belongs.  The top of the file takes
    [-c] for the alias and the next word for the context name, while
    [run] removes [-m] and [-c] as a pair and keeps that next word in the
    prompt. *)
Theorem flag_in_place_of_alias (config : Cli.Config)
    (node script x : string) (pre post : list string) :
  ~ In "-m" (node :: script :: pre) ->
  ~ In "-c" (node :: script :: pre) ->
  ~ In "-c" post ->
  Cli.startsWithDash x = false ->
  let argv := node :: script :: pre ++ "-m" :: "-c" :: x :: post in
  Cli.selectedModelAlias config argv = "-c" /\
  Cli.contextName argv = x /\
  Cli.promptWords argv
  = (filter (fun arg => negb (Cli.startsWithDash arg)) pre
       ++ x :: filter (fun arg => negb (Cli.startsWithDash arg)) post)%list.
Proof.
  intros Hm Hc Hp Hx argv. subst argv.
  assert (Hm1 : ~ In "-m" pre) by (intro H; apply Hm; simpl; auto).
  assert (Hc1 : ~ In "-c" pre) by (intro H; apply Hc; simpl; auto).
  assert (Hxc : x <> "-c") by (intros ->; discriminate Hx).
  unfold Cli.selectedModelAlias, Cli.contextName, Cli.promptWords.
  cbn [skipn].
  change (node :: script :: pre ++ "-m" :: "-c" :: x :: post)%list
    with ((node :: script :: pre) ++ "-m" :: "-c" :: x :: post)%list.
  rewrite flagValue_pair by exact Hm.
  replace ((node :: script :: pre) ++ "-m" :: "-c" :: x :: post)%list
    with (((node :: script :: pre) ++ ["-m"]) ++ "-c" :: x :: post)%list
    by (rewrite <- app_assoc; reflexivity).
  rewrite flagValue_pair by no_flag.
  rewrite stripFlag_pair by exact Hm1.
  rewrite stripFlag_absent by no_flag.
  rewrite filter_app. simpl. rewrite Hx. repeat split.
Qed.

Lemma existsb_eqb_In (k : string) (l : list string) :
  existsb (String.eqb k) l = true <-> In k l.
Proof.
  rewrite existsb_exists. split.
  - intros (x & Hin & E). apply String.eqb_eq in E. now subst.
  - intro H. exists k. split; [exact H | apply String.eqb_refl].
Qed.

(** X14. The model is the one configured for the alias when the alias
    is a key of [models] with a non-empty name.  An alias that is not a
    key falls back to the model of the default alias, unless it names a
    member of [Object.prototype] (such as [toString]): that member is
    then taken, and there is no fall-back.  An alias whose name is empty
    falls back as well. *)
Theorem model_resolution (config : Cli.Config) (argv : list string) :
  (forall id,
     JS.get (Cli.selectedModelAlias config argv) (Cli.models config) = Some id ->
     id <> EmptyString ->
     Cli.actualModelString config argv = Cli.Own id) /\
  (JS.get (Cli.selectedModelAlias config argv) (Cli.models config) = None ->
   ~ In (Cli.selectedModelAlias config argv) Cli.objectPrototype ->
   Cli.actualModelString config argv
   = Cli.read (Cli.models config) (Cli.defaultModel config)) /\
  (JS.get (Cli.selectedModelAlias config argv) (Cli.models config) = None ->
   In (Cli.selectedModelAlias config argv) Cli.objectPrototype ->
   Cli.actualModelString config argv
   = Cli.Inherited (Cli.selectedModelAlias config argv)) /\
  (JS.get (Cli.selectedModelAlias config argv) (Cli.models config)
   = Some EmptyString ->
   Cli.actualModelString config argv
   = Cli.read (Cli.models config) (Cli.defaultModel config)).
Proof.
  unfold Cli.actualModelString, Cli.read.
  split; [|split; [|split]].
  - intros id -> Hid. destruct id; [contradiction | reflexivity].
  - intros -> Hn.
    destruct (existsb (String.eqb (Cli.selectedModelAlias config argv))
                Cli.objectPrototype) eqn:E; [|reflexivity].
    apply existsb_eqb_In in E. contradiction.
  - intros -> Hin. apply existsb_eqb_In in Hin. now rewrite Hin.
  - intros ->. reflexivity.
Qed.

(** X15. A context document that cannot be read never ends the
    start-up by itself: the module is left with an error only when a
    warning threw it, and when warnings print there are always
    instructions.  The document named is read first; the instructions
    are what one of the two documents held, or the built-in sentence,
    and that only after [default.md] failed to read and the warning
    about it was printed. *)
Theorem context_fallback_chain (S : Cli.Startup) (name : string)
    (w : World (Cli.host S)) :
  (exists reply rest,
     Cli.shown S (Cli.loadContext S name w)
     = Cli.ReadContext (Cli.contextPath S name) reply :: rest) /\
  (forall x,
     Cli.rawInstructions S (Cli.loadContext S name w) = Throw x ->
     exists before line,
       Cli.shown S (Cli.loadContext S name w)
       = (before ++ [Cli.Warned line (inl x)])%list) /\
  (forall content,
     Cli.rawInstructions S (Cli.loadContext S name w) = Return content ->
     (exists before path,
        Cli.shown S (Cli.loadContext S name w)
        = (before ++ [Cli.ReadContext path (inr content)])%list /\
        (path = Cli.contextPath S name \/ path = Cli.defaultPath S)) \/
     (content = Cli.hardcoded /\
      exists before e,
        Cli.shown S (Cli.loadContext S name w)
        = (before ++ [Cli.ReadContext (Cli.defaultPath S) (inl e);
                      Cli.Warned Cli.missingDefault (inr tt)])%list)) /\
  Cli.rawInstructions S (Cli.loadContext S name w) <> Diverge /\
  ((forall w' line, exists w'', Cli.consoleWarn S w' line = (w'', inr tt)) ->
   exists content,
     Cli.rawInstructions S (Cli.loadContext S name w) = Return content).
Proof.
  unfold Cli.loadContext, Cli.loadDefault.
  destruct (snd (readFileSync (Cli.host S) w (Cli.contextPath S name)))
    as [e | content] eqn:R1; cbn [Cli.shown Cli.rawInstructions Cli.disk].
  2:{ split; [eauto|]. split; [discriminate|].
      split; [|split; [discriminate | eauto]].
      intros c [= <-]. left. exists [], (Cli.contextPath S name).
      split; [reflexivity | now left]. }
  destruct (negb (String.eqb name "default")) eqn:N.
  - destruct (Cli.consoleWarn S (fst (readFileSync (Cli.host S) w
                                        (Cli.contextPath S name)))
                (Cli.missingContext name)) as [w1 [x | []]] eqn:W1;
      cbn [fst snd Cli.shown Cli.rawInstructions Cli.disk].
    { split; [eauto|]. split.
      - intros y [= <-]. exists [Cli.ReadContext (Cli.contextPath S name) (inl e)].
        eexists. reflexivity.
      - split; [discriminate|]. split; [discriminate|].
        intro H. destruct (H (fst (readFileSync (Cli.host S) w
                                     (Cli.contextPath S name)))
                             (Cli.missingContext name)) as (w'' & Hw).
        rewrite Hw in W1. discriminate W1. }
    destruct (snd (readFileSync (Cli.host S) w1 (Cli.defaultPath S)))
      as [e' | content] eqn:R2;
      cbn [fst snd Cli.shown Cli.rawInstructions Cli.disk].
    2:{ split; [eauto|]. split; [discriminate|].
        split; [|split; [discriminate | eauto]].
        intros c [= <-]. left.
        exists [Cli.ReadContext (Cli.contextPath S name) (inl e);
                Cli.Warned (Cli.missingContext name) (inr tt)],
          (Cli.defaultPath S).
        split; [reflexivity | now right]. }
    destruct (Cli.consoleWarn S (fst (readFileSync (Cli.host S) w1
                                        (Cli.defaultPath S)))
                Cli.missingDefault) as [w2 [x | []]] eqn:W2;
      cbn [fst snd Cli.shown Cli.rawInstructions Cli.disk].
    + split; [eauto|]. split.
      * intros y [= <-].
        exists [Cli.ReadContext (Cli.contextPath S name) (inl e);
                Cli.Warned (Cli.missingContext name) (inr tt);
                Cli.ReadContext (Cli.defaultPath S) (inl e')].
        eexists. reflexivity.
      * split; [discriminate|]. split; [discriminate|].
        intro H. destruct (H (fst (readFileSync (Cli.host S) w1
                                     (Cli.defaultPath S)))
                             Cli.missingDefault) as (w'' & Hw).
        rewrite Hw in W2. discriminate W2.
    + split; [eauto|]. split; [discriminate|].
      split; [|split; [discriminate | eauto]].
      intros c [= <-]. right. split; [reflexivity|].
      exists [Cli.ReadContext (Cli.contextPath S name) (inl e);
              Cli.Warned (Cli.missingContext name) (inr tt)], e'.
      reflexivity.
  - destruct (snd (readFileSync (Cli.host S)
                     (fst (readFileSync (Cli.host S) w
                             (Cli.contextPath S name)))
                     (Cli.defaultPath S)))
      as [e' | content] eqn:R2;
      cbn [fst snd Cli.shown Cli.rawInstructions Cli.disk].
    2:{ split; [eauto|]. split; [discriminate|].
        split; [|split; [discriminate | eauto]].
        intros c [= <-]. left.
        exists [Cli.ReadContext (Cli.contextPath S name) (inl e)],
          (Cli.defaultPath S).
        split; [reflexivity | now right]. }
    destruct (Cli.consoleWarn S
                (fst (readFileSync (Cli.host S)
                        (fst (readFileSync (Cli.host S) w
                                (Cli.contextPath S name)))
                        (Cli.defaultPath S)))
                Cli.missingDefault) as [w2 [x | []]] eqn:W2;
      cbn [fst snd Cli.shown Cli.rawInstructions Cli.disk].
    + split; [eauto|]. split.
      * intros y [= <-].
        exists [Cli.ReadContext (Cli.contextPath S name) (inl e);
                Cli.ReadContext (Cli.defaultPath S) (inl e')].
        eexists. reflexivity.
      * split; [discriminate|]. split; [discriminate|].
        intro H. destruct (H (fst (readFileSync (Cli.host S)
                                     (fst (readFileSync (Cli.host S) w
                                             (Cli.contextPath S name)))
                                     (Cli.defaultPath S)))
                             Cli.missingDefault) as (w'' & Hw).
        rewrite Hw in W2. discriminate W2.
    + split; [eauto|]. split; [discriminate|].
      split; [|split; [discriminate | eauto]].
      intros c [= <-]. right. split; [reflexivity|].
      exists [Cli.ReadContext (Cli.contextPath S name) (inl e)], e'.
      reflexivity.
Qed.

(** * After a failure of the transport, and the order of the calls *)

Section LaterFacts.
Context {T : Transport} {M : Machine}.

Lemma processCalls_no_send (calls : list FunctionCall)
    (acc : list FunctionResponse) (s : State T M)
    (pre post : list Event) (m : Message) (reply : Exception + Response) :
  evs (processCalls calls acc s) <> (pre ++ Sent m reply :: post)%list.
Proof.
  intro H.
  destruct (processCalls_shape calls acc s) as (_ & _ & _ & _ & _ & Hx & _).
  rewrite H, exchanges_app in Hx. apply app_eq_nil in Hx.
  destruct Hx as [_ Hx]. discriminate Hx.
Qed.

(** A call to the transport that failed is the last thing the loop did. *)
Lemma loop_failed_send (fuel : nat) :
  forall (result : Response) (s : State T M)
         (pre post : list Event) (m : Message) (e : Exception),
    evs (loop fuel result s) = (pre ++ Sent m (inl e) :: post)%list ->
    post = [] /\ out (loop fuel result s) = Throw e.
Proof.
  induction fuel as [|fuel IH]; intros result s pre post m e Hev.
  { destruct pre; discriminate. }
  destruct (existsb hasFunctionCall result) eqn:E.
  2:{ rewrite (loop_terminal _ _ _ E) in Hev. destruct pre; discriminate. }
  destruct (loop_step fuel result s E) as (batch & reply & _ & _ & H).
  destruct reply as [e' | next].
  - destruct H as (He & Ho). rewrite He in Hev. symmetry in Hev.
    destruct (elt_in_app _ _ _ _ _ Hev) as [(mid & Hl & _) | (mid & -> & Hr)].
    + exfalso. exact (processCalls_no_send _ _ _ _ _ _ _ Hl).
    + destruct mid as [|x mid]; simpl in Hr.
      * inversion Hr; subst. split; [reflexivity | exact Ho].
      * inversion Hr as [[Hx Hm]]. destruct mid; discriminate Hm.
  - destruct H as (He & Ho & _). rewrite He in Hev. symmetry in Hev.
    destruct (elt_in_app _ _ _ _ _ Hev) as [(mid & Hl & _) | (mid & -> & Hr)].
    + exfalso. exact (processCalls_no_send _ _ _ _ _ _ _ Hl).
    + destruct mid as [|x mid]; simpl in Hr.
      * inversion Hr.
      * inversion Hr as [[Hx Hm]]. rewrite Ho. eapply IH. exact Hm.
Qed.

Lemma processCalls_app (a b : list FunctionCall) :
  forall (acc : list FunctionResponse) (s : State T M),
  exists ra,
    out (processCalls a acc s) = Return (acc ++ ra)%list /\
    evs (processCalls (a ++ b) acc s)
    = (evs (processCalls a acc s)
         ++ evs (processCalls b (acc ++ ra) (st (processCalls a acc s))))%list /\
    out (processCalls (a ++ b) acc s)
    = out (processCalls b (acc ++ ra) (st (processCalls a acc s))) /\
    st (processCalls (a ++ b) acc s)
    = st (processCalls b (acc ++ ra) (st (processCalls a acc s))).
Proof.
  induction a as [|call a IH]; intros acc s.
  - exists []. simpl. rewrite app_nil_r. repeat split; reflexivity.
  - destruct (processCall_shape call s) as ((r & Hr & _) & _).
    destruct (IH (acc ++ [r])%list (st (processCall call s)))
      as (ra & Ho & He & Ho' & Hs).
    exists (r :: ra).
    change ((call :: a) ++ b)%list with (call :: a ++ b)%list.
    simpl processCalls. rewrite !(bind_Return _ _ _ _ Hr).
    cbn [st evs out]. rewrite Ho, He, Ho', Hs, <- !app_assoc.
    repeat split; reflexivity.
Qed.

(** The responses already collected do not influence the processing. *)
Lemma processCalls_acc (calls : list FunctionCall) :
  forall (acc acc' : list FunctionResponse) (s : State T M),
  exists rb,
    out (processCalls calls acc s) = Return (acc ++ rb)%list /\
    out (processCalls calls acc' s) = Return (acc' ++ rb)%list /\
    evs (processCalls calls acc s) = evs (processCalls calls acc' s) /\
    st (processCalls calls acc s) = st (processCalls calls acc' s).
Proof.
  induction calls as [|call rest IH]; intros acc acc' s.
  - exists []. simpl. rewrite !app_nil_r. repeat split; reflexivity.
  - destruct (processCall_shape call s) as ((r & Hr & _) & _).
    destruct (IH (acc ++ [r])%list (acc' ++ [r])%list
                (st (processCall call s))) as (rb & H1 & H2 & He & Hs).
    exists (r :: rb). simpl processCalls.
    rewrite !(bind_Return _ _ _ _ Hr). cbn [st evs out].
    rewrite H1, H2, He, Hs, <- !app_assoc. repeat split; reflexivity.
Qed.

End LaterFacts.

(** X16. Once a call to the transport has failed, the run does nothing
    more than print the fatal line for that error and close the input:
    the operator is not asked again and nothing is executed. *)
Theorem nothing_after_transport_failure (T : Transport) (M : Machine)
    (fuel : nat) (prompt : string) (s : State T M)
    (pre post : list Event) (m : Message) (e : Exception) :
  evs (run fuel prompt s) = (pre ++ Sent m (inl e) :: post)%list ->
  post = [Printed red (fatalLine e); Closed].
Proof.
  intro Hev.
  destruct (run_eq fuel prompt s) as (He & _). rewrite He in Hev. clear He.
  symmetry in Hev.
  assert (Htail : forall o : Outcome unit,
            forall a b,
              match o with
              | Return _ => [Closed]
              | Throw x => [Printed red (fatalLine x); Closed]
              | Diverge => []
              end <> (a ++ Sent m (inl e) :: b)%list).
  { intros o a b H.
    assert (Hin : In (Sent m (inl e))
                     match o with
                     | Return _ => [Closed]
                     | Throw x => [Printed red (fatalLine x); Closed]
                     | Diverge => []
                     end) by (rewrite H; apply in_elt).
    destruct o; simpl in Hin;
      repeat match goal with
             | H : _ \/ _ |- _ => destruct H
             | H : False |- _ => destruct H
             end; discriminate. }
  destruct (snd (sendMessage T (chat s) (Prompt prompt)))
    as [e0 | first] eqn:E.
  - rewrite (conversation_failed fuel prompt s e0 E) in Hev.
    cbn [evs out] in Hev.
    destruct pre as [|x pre]; simpl in Hev.
    + inversion Hev; subst. reflexivity.
    + inversion Hev as [[Hx Hp]]. exfalso. symmetry in Hp.
      exact (Htail (Throw e0) _ _ Hp).
  - destruct (conversation_started fuel prompt s first E) as (He & Ho & _).
    rewrite He, Ho in Hev. clear He Ho.
    destruct pre as [|x pre]; simpl in Hev; [inversion Hev|].
    inversion Hev as [[Hx Hp]]. clear Hev. rename Hp into Hev.
    rewrite <- app_assoc in Hev.
    destruct (elt_in_app _ _ _ _ _ Hev) as [(mid & Hl & ->) | (mid & _ & Hr)].
    + destruct (loop_failed_send _ _ _ _ _ _ _ Hl) as (-> & Ho).
      rewrite Ho. reflexivity.
    + exfalso.
      destruct (out (loop fuel first (afterSend (Prompt prompt) s)))
        as [r | x' |] eqn:L; cbn [app] in Hr.
      * destruct mid as [|y mid]; simpl in Hr; [inversion Hr|].
        inversion Hr as [[Hy Hm]].
        destruct mid as [|z mid]; simpl in Hm; [inversion Hm|].
        inversion Hm as [[Hz Hm']]. destruct mid; discriminate Hm'.
      * exact (Htail (Throw x') _ _ Hr).
      * exact (Htail Diverge _ _ Hr).
Qed.

(** X17. The calls of a turn are processed one after the other: the
    processing of a list of calls followed by another is the processing
    of the first list, then that of the second in the state the first
    left, with the responses of the first already in the batch. *)
Theorem calls_processed_in_sequence (T : Transport) (M : Machine)
    (a b : list FunctionCall) (s : State T M) :
  exists ra rb,
    out (processCalls a [] s) = Return ra /\
    out (processCalls b [] (st (processCalls a [] s))) = Return rb /\
    out (processCalls (a ++ b) [] s) = Return (ra ++ rb)%list /\
    evs (processCalls (a ++ b) [] s)
    = (evs (processCalls a [] s)
         ++ evs (processCalls b [] (st (processCalls a [] s))))%list /\
    st (processCalls (a ++ b) [] s)
    = st (processCalls b [] (st (processCalls a [] s))).
Proof.
  destruct (processCalls_app a b [] s) as (ra & Ha & He & Ho & Hs).
  simpl in Ha.
  destruct (processCalls_acc b ra [] (st (processCalls a [] s)))
    as (rb & H1 & H2 & He' & Hs').
  simpl in H2. simpl app in He, Ho, Hs.
  exists ra, rb. rewrite He, Ho, Hs, H1, He', Hs'.
  repeat split; assumption.
Qed.

(** * The further properties at work *)

(** X5 on a log of 3000 code units: all of it is returned. *)
Lemma read_file_not_truncated_witness :
  2000 < String.length (Bench.repeatString 1500 "ab") /\
  out (processCall Trial.readLog Trial.archive)
  = Return {| fr_name := "read_file";
              response := ContentOf (Bench.repeatString 1500 "ab") |}.
Proof.
  split; [apply Nat.ltb_lt; vm_compute; reflexivity|].
  apply (read_file_not_truncated scripted Bench.machine
           Trial.readLog Trial.archive "/work/log.txt"
           (Bench.repeatString 1500 "ab")).
  - reflexivity.
  - vm_compute. reflexivity.
  - reflexivity.
  - vm_compute. reflexivity.
Defined.

(** X6 on a write to a.txt. *)
Lemma write_needs_path_and_directory_witness :
  name Bench.writeCall = "write_file" /\
  exists p,
    In (WriteFileSync p (Some "hello") (inr tt))
       (evs (execute Bench.writeCall (Bench.start [] []))).
Proof.
  split; [reflexivity|].
  apply (proj2 (write_needs_path_and_directory scripted Bench.machine
                  Bench.writeCall (Bench.start [] []) eq_refl)
           "Successfully wrote file: a.txt").
  vm_compute. reflexivity.
Defined.

(** X10 on [gemini explain -m pro this -c net -v please]. *)
Lemma command_line_understood_witness :
  Cli.selectedModelAlias Cli.builtinConfig
    ["node"; "gemini"; "explain"; "-m"; "pro"; "this"; "-c"; "net";
     "-v"; "please"] = "pro" /\
  Cli.contextName
    ["node"; "gemini"; "explain"; "-m"; "pro"; "this"; "-c"; "net";
     "-v"; "please"] = "net" /\
  Cli.promptWords
    ["node"; "gemini"; "explain"; "-m"; "pro"; "this"; "-c"; "net";
     "-v"; "please"] = ["explain"; "this"; "please"].
Proof.
  apply (proj1 (command_line_understood Cli.builtinConfig
                  "node" "gemini" "pro" "net"
                  ["explain"] ["this"] ["-v"; "please"]
                  ltac:(simpl; intuition discriminate)
                  ltac:(simpl; intuition discriminate)
                  ltac:(simpl; intuition discriminate)
                  ltac:(simpl; intuition discriminate))).
  discriminate.
Defined.

(** X12 on [gemini hello -m]. *)
Lemma flag_without_value_witness :
  Cli.selectedModelAlias Cli.builtinConfig ["node"; "gemini"; "hello"; "-m"]
  = "flash" /\
  Cli.promptWords ["node"; "gemini"; "hello"; "-m"] = ["hello"].
Proof.
  apply (proj1 (flag_without_value Cli.builtinConfig "node" "gemini" ["hello"]
                  ltac:(simpl; intuition discriminate)
                  ltac:(simpl; intuition discriminate))).
Defined.

(** X13 on [gemini -m -c net hello]: [net] is the context and also the
    first word of the prompt. *)
Lemma flag_in_place_of_alias_witness :
  Cli.selectedModelAlias Cli.builtinConfig
    ["node"; "gemini"; "-m"; "-c"; "net"; "hello"] = "-c" /\
  Cli.contextName ["node"; "gemini"; "-m"; "-c"; "net"; "hello"] = "net" /\
  Cli.promptWords ["node"; "gemini"; "-m"; "-c"; "net"; "hello"]
  = ["net"; "hello"].
Proof.
  apply (flag_in_place_of_alias Cli.builtinConfig "node" "gemini" "net"
           [] ["hello"]
           ltac:(simpl; intuition discriminate)
           ltac:(simpl; intuition discriminate)
           ltac:(simpl; intuition discriminate)
           eq_refl).
Defined.

(** X16 on a transport that fails after one turn. *)
Lemma nothing_after_transport_failure_witness :
  exists post,
    evs (run 3 "list files"
           (Bench.start [[Bench.requests Bench.lsCall]] ["y"]))
    = ([Sent (Prompt "list files") (inr [Bench.requests Bench.lsCall]);
        Printed yellow (requestLine Bench.lsCall);
        Asked permissionQuery "y";
        ExecSync (Some "ls") (inr "/work/notes.txt")]
         ++ Sent (Responses [{| fr_name := "run_shell_command";
                                response := ContentOf "/work/notes.txt" |}])
              (inl {| message := "fetch failed" |})
         :: post)%list /\
    post = [Printed red (fatalLine {| message := "fetch failed" |}); Closed].
Proof.
  eexists. split; [vm_compute; reflexivity|].
  apply (nothing_after_transport_failure scripted Bench.machine 3 "list files"
           (Bench.start [[Bench.requests Bench.lsCall]] ["y"])
           [Sent (Prompt "list files") (inr [Bench.requests Bench.lsCall]);
            Printed yellow (requestLine Bench.lsCall);
            Asked permissionQuery "y";
            ExecSync (Some "ls") (inr "/work/notes.txt")]
           _
           (Responses [{| fr_name := "run_shell_command";
                          response := ContentOf "/work/notes.txt" |}])
           {| message := "fetch failed" |}).
  vm_compute. reflexivity.
Defined.

(** With the built-in configuration an unknown alias gives the default
    model, and the alias [toString] does not. *)
Example unknown_alias :
  Cli.actualModelString Cli.builtinConfig ["node"; "gemini"; "-m"; "pro"; "hi"]
  = Cli.Own "gemini-3-flash" /\
  Cli.actualModelString Cli.builtinConfig
    ["node"; "gemini"; "-m"; "toString"; "hi"]
  = Cli.Inherited "toString".
Proof. split; reflexivity. Qed.

(** A missing context with the default in place, with warnings that
    print and with warnings that throw. *)
Example missing_context :
  Cli.rawInstructions Trial.quiet (Cli.loadContext Trial.quiet "net" Trial.shelf)
  = Return "You are a careful assistant." /\
  Cli.rawInstructions Trial.quiet (Cli.loadContext Trial.quiet "net" Trial.bare)
  = Return Cli.hardcoded /\
  Cli.rawInstructions Trial.unstyled
    (Cli.loadContext Trial.unstyled "net" Trial.shelf)
  = Throw {| message := "chalk.orange is not a function" |}.
Proof. repeat split; vm_compute; reflexivity. Qed.

(** * Replies that cannot be read *)

Lemma Did_inj_list (a b : list Event) : map Did a = map Did b -> a = b.
Proof.
  revert b. induction a as [|x a IH]; intros [|y b] H; simpl in H;
    try discriminate; [reflexivity|].
  inversion H as [[Hx Hab]]. f_equal. now apply IH.
Qed.


Lemma Did_no_Received (d : list Event) (pre post : list Step)
    (m : Message) (reply : Exception + Reply) :
  map Did d <> (pre ++ Received m reply :: post)%list.
Proof.
  revert pre. induction d as [|x d IH]; intros pre H.
  - destruct pre; discriminate.
  - destruct pre as [|y pre]; simpl in H; inversion H as [[Hx Hd]].
    exact (IH pre Hd).
Qed.


Section DeliveredFacts.
Context {V : Service} {M : Machine}.

Lemma processDelivered_cons (call : DeliveredCall)
    (rest : list DeliveredCall) (acc : list FunctionResponse) (w : World M) :
  processDelivered (call :: rest) acc w =
    match calledArgs call with
    | None => {| after := w; did := []; batch := Throw unreadableArgs |}
    | Some a =>
        let r := processCall {| name := calledName call; args := a |}
                   (@Build_State idle M tt w) in
        match out r with
        | Return response =>
            let k := processDelivered rest (acc ++ [response])
                       (world (st r)) in
            {| after := after k; did := evs r ++ did k; batch := batch k |}
        | Throw e =>
            {| after := world (st r); did := evs r; batch := Throw e |}
        | Diverge =>
            {| after := world (st r); did := evs r; batch := Diverge |}
        end
    end.
Proof. reflexivity. Qed.


Lemma deliveredLoop_S (fuel : nat) (result : Reply)
    (c : Session V) (w : World M) :
  deliveredLoop (S fuel) result c w =
    match partsRead result with
    | inl e => {| sess := c; mach := w; steps := []; ended := Throw e |}
    | inr parts =>
        if existsb hasDeliveredCall parts then
          let b := processDelivered (deliveredCallsOf parts) [] w in
          match batch b with
          | Return functionResponses =>
              let r := sendReply V c (Responses functionResponses) in
              match snd r with
              | inl e =>
                  {| sess := fst r; mach := after b;
                     steps := map Did (did b)
                                ++ [Received (Responses functionResponses)
                                      (inl e)];
                     ended := Throw e |}
              | inr next =>
                  let k := deliveredLoop fuel next (fst r) (after b) in
                  {| sess := sess k; mach := mach k;
                     steps := map Did (did b)
                                ++ Received (Responses functionResponses)
                                     (inr next)
                                :: steps k;
                     ended := ended k |}
              end
          | Throw e =>
              {| sess := c; mach := after b;
                 steps := map Did (did b); ended := Throw e |}
          | Diverge =>
              {| sess := c; mach := after b;
                 steps := map Did (did b); ended := Diverge |}
          end
        else
          {| sess := c; mach := w; steps := []; ended := Return result |}
    end.
Proof. reflexivity. Qed.









End DeliveredFacts.




(** ** Well-formed replies: the loop is [run] *)










Lemma deliveredCallsOf_some (parts : list DeliveredPart)
    (call : DeliveredCall) (rest : list DeliveredCall) :
  deliveredCallsOf parts = call :: rest ->
  existsb hasDeliveredCall parts = true.
Proof.
  induction parts as [|p parts IH]; [discriminate|].
  simpl. unfold hasDeliveredCall. destruct (partCall p); [reflexivity|].
  exact IH.
Qed.

(** X19.  A first reply whose parts cannot be read, or whose first
    function call has no arguments, ends the run at once: the fatal line
    is printed for the error of the reading, the input is closed, and
    the operator is never asked and nothing is sent back. *)
Theorem unreadable_first_reply (V : Service) (M : Machine) (fuel : nat)
    (prompt : string) (c : Session V) (w : World M) (first : Reply) :
  snd (sendReply V c (Prompt prompt)) = inr first ->
  (forall e,
     partsRead first = inl e ->
     steps (deliveredRun (S fuel) prompt c w)
     = [Received (Prompt prompt) (inr first);
        Did (Printed red
               (String (ascii_of_nat 10) ("[Fatal Error]: " ++ message e)));
        Did Closed] /\
     ended (deliveredRun (S fuel) prompt c w) = Return tt) /\
  (forall parts call rest,
     partsRead first = inr parts ->
     deliveredCallsOf parts = call :: rest ->
     calledArgs call = None ->
     steps (deliveredRun (S fuel) prompt c w)
     = [Received (Prompt prompt) (inr first);
        Did (Printed red
               (String (ascii_of_nat 10)
                  ("[Fatal Error]: Cannot read properties of undefined "
                     ++ "(reading 'length')")));
        Did Closed] /\
     ended (deliveredRun (S fuel) prompt c w) = Return tt).
Proof.
  intro H. split.
  - intros e P. unfold deliveredRun, deliveredConversation. cbv zeta.
    rewrite H, deliveredLoop_S, P. cbn [ended steps]. split; reflexivity.
  - intros parts call rest P Hc Ha.
    unfold deliveredRun, deliveredConversation. cbv zeta.
    rewrite H, deliveredLoop_S, P, (deliveredCallsOf_some _ _ _ Hc), Hc.
    cbv zeta. rewrite processDelivered_cons, Ha.
    cbn [batch did after ended steps map app]. split; reflexivity.
Qed.

(** X19 on a reply without a candidate and on a call without arguments. *)
Lemma unreadable_first_reply_witness :
  (steps (deliveredRun (V := Trial.replaying) (M := Bench.machine)
            1 "hello" [Trial.noCandidate] Trial.approving)
   = [Received (Prompt "hello") (inr Trial.noCandidate);
      Did (Printed red
             (String (ascii_of_nat 10)
                ("[Fatal Error]: "
                   ++ "Cannot read properties of undefined (reading 'content')")));
      Did Closed] /\
   ended (deliveredRun (V := Trial.replaying) (M := Bench.machine)
            1 "hello" [Trial.noCandidate] Trial.approving) = Return tt) /\
  (steps (deliveredRun (V := Trial.replaying) (M := Bench.machine)
            1 "hello" [Trial.bareCall] Trial.approving)
   = [Received (Prompt "hello") (inr Trial.bareCall);
      Did (Printed red
             (String (ascii_of_nat 10)
                ("[Fatal Error]: Cannot read properties of undefined "
                   ++ "(reading 'length')")));
      Did Closed] /\
   ended (deliveredRun (V := Trial.replaying) (M := Bench.machine)
            1 "hello" [Trial.bareCall] Trial.approving) = Return tt).
Proof.
  split.
  - apply (proj1 (unreadable_first_reply Trial.replaying Bench.machine 0
                    "hello" [Trial.noCandidate] Trial.approving
                    Trial.noCandidate eq_refl)
             {| message :=
                  "Cannot read properties of undefined (reading 'content')" |}).
    reflexivity.
  - apply (proj2 (unreadable_first_reply Trial.replaying Bench.machine 0
                    "hello" [Trial.bareCall] Trial.approving
                    Trial.bareCall eq_refl)
             [{| partText := None;
                 partCall := Some {| calledName := "run_shell_command";
                                     calledArgs := None |} |}]
             {| calledName := "run_shell_command"; calledArgs := None |}
             []); reflexivity.
Defined.
